(** * TvTumbler feeders: release resolution pipeline

    A shallow embedding of [tvtumbler/feeder.py], [tvtumbler/feeders/base.py]
    and [tvtumbler/feeders/showrss.py].

    - Python dictionaries are [gmap]s, [list(set(urls))] goes through a
      [gset]; the order in which a dictionary or a set is walked is left
      open by Python and is the one of [map_to_list] and [elements] here.
    - [datetime] values are integers counting microseconds, so that
      [timedelta(seconds=n)] is [n * 1000000].
    - Attribute access on a feedparser entry either yields a value or raises
      [KeyError]/[AttributeError]; the [try ... except] blocks of the source
      are written with [try_except].
    - The clock and the feed transport are part of an explicit [World]. *)

From Stdlib Require Import ZArith String Ascii.
From stdpp Require Import base option list gmap strings fin_maps fin_sets.

Local Open Scope string_scope.
Local Open Scope list_scope.
Local Open Scope Z_scope.

(** ** Exceptions and effects *)

(** The two exception classes the feeders catch. *)
Inductive exn := KeyError | AttributeError.

Inductive res (A : Type) :=
  | Ok (a : A)
  | Raise (e : exn).
Arguments Ok {A} a.
Arguments Raise {A} e.

(** A computation over a mutable state [S] that may raise.  The state
    survives an exception: what was mutated before the [raise] stays
    mutated. *)
Definition M (S A : Type) : Type := S → res A * S.

Definition ret {S A} (a : A) : M S A := λ s, (Ok a, s).

Definition bind {S A B} (m : M S A) (k : A → M S B) : M S B :=
  λ s, match m s with
       | (Ok a, s') => k a s'
       | (Raise e, s') => (Raise e, s')
       end.

Definition raise {S A} (e : exn) : M S A := λ s, (Raise e, s).
Definition get {S} : M S S := λ s, (Ok s, s).
Definition put {S} (s : S) : M S unit := λ _, (Ok tt, s).
Definition modify {S} (f : S → S) : M S unit := λ s, (Ok tt, f s).

(** stdpp's monad notations: [x ← m; k] and [m ;; k]. *)
Global Instance M_ret {S} : MRet (M S) := λ A, @ret S A.
Global Instance M_bind {S} : MBind (M S) := λ A B k m, bind m k.

(** [except (KeyError, AttributeError)]: the tuple of classes every handler
    of the source lists. *)
Definition caught (e : exn) : bool :=
  match e with
  | KeyError => true
  | AttributeError => true
  end.

(** [try: body  except (KeyError, AttributeError), e: handler e] *)
Definition try_except {S} (body : M S unit) (handler : exn → M S unit) : M S unit :=
  λ s, match body s with
       | (Ok u, s') => (Ok u, s')
       | (Raise e, s') => if caught e then handler e s' else (Raise e, s')
       end.

(** [for x in xs: body x] *)
Fixpoint for_each {S A} (xs : list A) (body : A → M S unit) : M S unit :=
  match xs with
  | [] => ret tt
  | x :: xs' => body x ;; for_each xs' body
  end.

(** The state a computation leaves behind, whatever its outcome. *)
Definition exec {S A} (m : M S A) (s : S) : S := (m s).2.

(** ** Attributes of feedparser objects *)

(** Reading [obj.attr] on a feedparser dictionary gives the stored value or
    raises. *)
Inductive attr (A : Type) :=
  | Has (a : A)
  | Missing (e : exn).
Arguments Has {A} a.
Arguments Missing {A} e.

Definition getattr {S A} (a : attr A) : M S A :=
  match a with
  | Has v => ret v
  | Missing e => raise e
  end.

(** ** Strings *)

Definition startswith (s pre : string) : bool := String.prefix pre s.

Definition endswith (s suf : string) : bool :=
  String.prefix (String.rev suf) (String.rev s).

(** [s[n:]] *)
Fixpoint slice_from (n : nat) (s : string) : string :=
  match n, s with
  | O, _ => s
  | S n', String _ s' => slice_from n' s'
  | S _, EmptyString => EmptyString
  end.

(** Truth value of a Python string. *)
Definition truthy (s : string) : bool :=
  match s with
  | EmptyString => false
  | String _ _ => true
  end.

(** ** Data model *)

Record TvShow := { tvdb_id : Z }.

Record TvEpisode := {
  tvshow : TvShow;
  tvdb_episodes : list (Z * Z);
}.

(** What ends up as the timestamp of a release: the [time.struct_time]
    of [published_parsed], the [datetime.datetime] of the substitute, or
    the value [None]. *)
Inductive pytime :=
  | StructTime (t : Z)
  | DateTime (us : Z)
  | NoneTime.

Inductive FeederClass :=
  | BaseFeederCls
  | TorrentFeederCls
  | VODFeederCls
  | ShowRSSFeederCls.

(** [links.Torrent], as built by [TorrentFeeder._parse_rss_item].  [name] is
    the entry's title, [None] when the entry has none. *)
Record Torrent := {
  urls : list string;
  episodes : list TvEpisode;
  name : option string;
  quality : Z;
  timestamp : pytime;
  feeder : FeederClass;
}.

(** An enclosure or a link of an entry. *)
Record Link := {
  type : attr string;
  href : attr string;
}.

(** A feed entry.  [published_parsed], when the entry has it, holds the
    parsed date, or [None] for a date text that could not be parsed. *)
Record Item := {
  filename : attr string;
  magneturi : attr string;
  enclosures : attr (list Link);
  links : attr (list Link);
  title : attr string;
  published_parsed : attr (option Z);
  infohash : attr string;
}.

Record Feed := { entries : list Item }.

(** The result of [names.SceneNameParser(...)]. *)
Module NameParser.
Record t := {
  is_known : bool;
  episodes : list TvEpisode;
  quality : Z;
}.
End NameParser.

(** The clock and the feed transport.  [clock n] is what the [n]-th call of
    [datetime.datetime.now()] returns (in microseconds), [network url n] what
    the [n]-th call of [feedparser.parse] returns for [url]: [None] stands
    for a result that is false in a condition. *)
Record World := {
  clock : nat → Z;
  now_calls : nat;
  network : option string → nat → option Feed;
  fetch_calls : nat;
}.

Definition datetime_now : M World Z :=
  λ w, (Ok (clock w (now_calls w)),
        {| clock := clock w; now_calls := S (now_calls w);
           network := network w; fetch_calls := fetch_calls w |}).

Definition feedparser_parse (url : option string) : M World (option Feed) :=
  λ w, (Ok (network w url (fetch_calls w)),
        {| clock := clock w; now_calls := now_calls w;
           network := network w; fetch_calls := S (fetch_calls w) |}).

(** [timedelta(seconds=n)] *)
Definition timedelta_seconds (n : Z) : Z := n * 1000000.

(** The modules of the package that are used but not part of these files. *)
Class Externals := {
  (** [quality.UNKNOWN_QUALITY] *)
  UNKNOWN_QUALITY : Z;
  (** [quality.HD720P_COMP] *)
  HD720P_COMP : Z;
  (** [numbering.SCENE_NUMBERING] *)
  SCENE_NUMBERING : Z;
  (** [names.SceneNameParser(name, has_ext=..., numbering_system=...)] *)
  SceneNameParser : option string → bool → Z → NameParser.t;
  (** [Downloadable.is_wanted] *)
  is_wanted : Torrent → bool;
}.

(** ** feeders/base.py and feeders/showrss.py *)

Section Feeders.
Context `{Externals}.

(** [urls.append(x)] *)
Definition append (x : string) : M (list string) unit :=
  modify (λ urls, urls ++ [x]).

(** [s.endwidth(suf)]: a Python string has no attribute of that name, the
    lookup raises before anything is called. *)
Definition endwidth (s suf : string) : M (list string) bool :=
  raise AttributeError.

Definition pass (e : exn) : M (list string) unit := ret tt.

(** The second [try] block of [TorrentFeeder._parse_rss_item]. *)
Definition collect_magneturi (item : Item) : M (list string) unit :=
  try_except
    (magnet_uri ← getattr (magneturi item);
     if truthy magnet_uri then append magnet_uri else ret tt)
    pass.

(** The condition of the enclosure loop; [or] evaluates its right operand
    only when the left one is false. *)
Definition enclosure_matches (enc : Link) : M (list string) bool :=
  ty ← getattr (type enc);
  if String.eqb ty "application/x-bittorrent" then ret true
  else
    h ← getattr (href enc);
    if startswith h "magnet:" then ret true
    else
      h ← getattr (href enc);
      endwidth h ".torrent".

(** The third [try] block: the enclosures. *)
Definition collect_enclosures (item : Item) : M (list string) unit :=
  try_except
    (encs ← getattr (enclosures item);
     for_each encs (λ enc : Link,
       c ← enclosure_matches enc;
       if (c : bool) then h ← getattr (href enc); append h else ret tt))
    pass.

Definition link_matches (link : Link) : M (list string) bool :=
  h ← getattr (href link);
  if startswith h "magnet:" then ret true
  else
    h ← getattr (href link);
    ret (endswith h ".torrent").

(** The fourth [try] block: the links. *)
Definition collect_links (item : Item) : M (list string) unit :=
  try_except
    (lks ← getattr (links item);
     for_each lks (λ link : Link,
       c ← link_matches link;
       if (c : bool) then h ← getattr (href link); append h else ret tt))
    pass.

(** The last [try] block: a magnet made from the info hash. *)
Definition collect_infohash (item : Item) : M (list string) unit :=
  try_except
    (infoHash ← getattr (infohash item);
     if truthy infoHash then
       urls ← get;
       let magnets := filter (λ k, startswith k "magnet:" = true) urls in
       if (length magnets =? 0)%nat
       then append ("magnet:?xt=urn:btih:" +:+ infoHash)
       else ret tt
     else ret tt)
    pass.

(** [urls] as it stands just before duplicates are removed.  The blocks
    reading [item.title] and [item.published_parsed] stand between
    [collect_links] and [collect_infohash] in the source and do not touch
    [urls]. *)
Definition collected_urls (item : Item) : list string :=
  let urls := [] in
  let urls := exec (collect_magneturi item) urls in
  let urls := exec (collect_enclosures item) urls in
  let urls := exec (collect_links item) urls in
  let urls := exec (collect_infohash item) urls in
  urls.

(** [list(set(urls))] *)
Definition remove_duplicates (urls : list string) : list string :=
  elements (list_to_set urls : gset string).

(** [try: x = item.attr  except (KeyError, AttributeError): pass] for a
    variable that starts as [None]; both classes of [exn] are caught. *)
Definition attr_or_None {A} (a : attr A) : option A :=
  match a with
  | Has v => Some v
  | Missing _ => None
  end.

(** The value of [item.published_parsed] as a timestamp. *)
Definition parsed_date (v : option Z) : pytime :=
  match v with
  | Some d => StructTime d
  | None => NoneTime
  end.

(** The sixth [try] block: the publication date.  Whatever value the
    entry holds is taken as it is. *)
Definition read_pubDate (item : Item) : M World pytime :=
  match published_parsed item with
  | Has v => ret (parsed_date v)
  | Missing e =>
      if caught e then now ← datetime_now; ret (DateTime now)
      else raise e
  end.

Definition get_nameparser (c : FeederClass) :
    option string → bool → Z → NameParser.t :=
  SceneNameParser.

Definition get_numbering (c : FeederClass) : Z := SCENE_NUMBERING.

(** [TorrentFeeder._parse_rss_item], for a feeder of class [self]. *)
Definition TorrentFeeder_parse_rss_item (self : FeederClass) (item : Item)
    : M World (option Torrent) :=
  let fileName := attr_or_None (filename item) in
  let title := attr_or_None (title item) in
  pubDate ← read_pubDate item;
  let urls := remove_duplicates (collected_urls item) in
  if (length urls =? 0)%nat then ret None
  else
    let '(parse_name, has_ext) :=
      match fileName with
      | Some f => if truthy f then (Some f, true) else (title, false)
      | None => (title, false)
      end in
    let nameparser :=
      get_nameparser self parse_name has_ext (get_numbering self) in
    if negb (NameParser.is_known nameparser) then ret None
    else ret (Some {| urls := urls;
                      episodes := NameParser.episodes nameparser;
                      name := title;
                      quality := NameParser.quality nameparser;
                      timestamp := pubDate;
                      feeder := self |}).

Definition set_title (item : Item) (t : string) : Item :=
  {| filename := filename item; magneturi := magneturi item;
     enclosures := enclosures item; links := links item;
     title := Has t; published_parsed := published_parsed item;
     infohash := infohash item |}.

Definition set_quality (torrent : Torrent) (q : Z) : Torrent :=
  {| urls := urls torrent; episodes := episodes torrent;
     name := name torrent; quality := q;
     timestamp := timestamp torrent; feeder := feeder torrent |}.

(** [known_quality] is [False] ([None] here) or a quality; a quality is
    true in a condition when it is not zero. *)
Definition known_quality_true (known_quality : option Z) : bool :=
  match known_quality with
  | None => false
  | Some q => negb (q =? 0)
  end.

(** [ShowRSSFeeder._parse_rss_item] *)
Definition ShowRSSFeeder_parse_rss_item (item : Item)
    : M World (option Torrent) :=
  t ← getattr (title item);
  let '(item, known_quality) :=
    if startswith t "HD 720p: "
    then (set_title item (slice_from 9 t), Some HD720P_COMP)
    else (item, None) in
  torrent ← TorrentFeeder_parse_rss_item ShowRSSFeederCls item;
  match torrent, known_quality with
  | Some tor, Some q =>
      if (quality tor =? UNKNOWN_QUALITY) && known_quality_true known_quality
      then ret (Some (set_quality tor q))
      else ret torrent
  | _, _ => ret torrent
  end.

(** [self._parse_rss_item(item)], by the class of [self]. *)
Definition _parse_rss_item (self : FeederClass) (item : Item)
    : M World (option Torrent) :=
  match self with
  | BaseFeederCls => ret None
  | VODFeederCls => ret None
  | TorrentFeederCls => TorrentFeeder_parse_rss_item TorrentFeederCls item
  | ShowRSSFeederCls => ShowRSSFeeder_parse_rss_item item
  end.

(** The instance state of a feeder. *)
Record BaseFeeder := {
  cls : FeederClass;
  min_update_freq_secs : Z;
  rss_url : option string;
  _latest : list Torrent;
  _last_update_datetime : option Z;
}.

Definition BaseFeeder__init__ (c : FeederClass) : BaseFeeder :=
  {| cls := c;
     min_update_freq_secs := 15 * 60;
     rss_url := None;
     _latest := [];
     _last_update_datetime := None |}.

Definition set_rss_url (self : BaseFeeder) (u : option string) : BaseFeeder :=
  {| cls := cls self; min_update_freq_secs := min_update_freq_secs self;
     rss_url := u; _latest := _latest self;
     _last_update_datetime := _last_update_datetime self |}.

Definition set__latest (self : BaseFeeder) (l : list Torrent) : BaseFeeder :=
  {| cls := cls self; min_update_freq_secs := min_update_freq_secs self;
     rss_url := rss_url self; _latest := l;
     _last_update_datetime := _last_update_datetime self |}.

Definition set__last_update_datetime (self : BaseFeeder) (d : option Z)
    : BaseFeeder :=
  {| cls := cls self; min_update_freq_secs := min_update_freq_secs self;
     rss_url := rss_url self; _latest := _latest self;
     _last_update_datetime := d |}.

(** The constructor of each class. *)
Definition __init__ (c : FeederClass) : BaseFeeder :=
  match c with
  | ShowRSSFeederCls =>
      set_rss_url (BaseFeeder__init__ c)
                  (Some "http://showrss.karmorra.info/feeds/all.rss")
  | _ => BaseFeeder__init__ c
  end.

(** Methods run on the feeder and the world together. *)
Definition in_world {A} (m : M World A) : M (BaseFeeder * World) A :=
  λ '(self, w), let '(r, w') := m w in (r, (self, w')).

Definition on_self (f : BaseFeeder → BaseFeeder) : M (BaseFeeder * World) unit :=
  modify (λ '(self, w), (f self, w)).

Definition the_self : M (BaseFeeder * World) BaseFeeder :=
  λ '(self, w), (Ok self, (self, w)).

(** The body of the loop of [_update].  A [Torrent] is an object without
    a truth value of its own, so [if i:] only tells it from [None]. *)
Definition parse_and_store (entry : Item) : M (BaseFeeder * World) unit :=
  self ← the_self;
  i ← in_world (_parse_rss_item (cls self) entry);
  match i with
  | Some i => on_self (λ self, set__latest self (_latest self ++ [i]))
  | None => ret tt
  end.

(** [BaseFeeder._update] *)
Definition _update : M (BaseFeeder * World) bool :=
  self ← the_self;
  feed ← in_world (feedparser_parse (rss_url self));
  now ← in_world datetime_now;
  on_self (λ self, set__last_update_datetime self (Some now)) ;;
  on_self (λ self, set__latest self []) ;;
  match feed with
  | Some feed => for_each (entries feed) parse_and_store ;; ret true
  | None => ret false
  end.

(** The condition of [get_latest]; the clock is read only when a last
    update is recorded. *)
Definition update_needed (self : BaseFeeder) : M (BaseFeeder * World) bool :=
  match _last_update_datetime self with
  | None => ret true
  | Some last =>
      now ← in_world datetime_now;
      ret (last + timedelta_seconds (min_update_freq_secs self) <? now)
  end.

(** [BaseFeeder.get_latest] *)
Definition get_latest : M (BaseFeeder * World) (list Torrent) :=
  self ← the_self;
  needed ← update_needed self;
  (if (needed : bool) then _update ;; ret tt else ret tt) ;;
  self ← the_self;
  ret (_latest self).

(** *** Notions used to state what the feeders do *)

(** The world after one more reading of the clock. *)
Definition tick (w : World) : World :=
  {| clock := clock w; now_calls := S (now_calls w);
     network := network w; fetch_calls := fetch_calls w |}.

(** The world after one more fetch. *)
Definition fetched (w : World) : World :=
  {| clock := clock w; now_calls := now_calls w;
     network := network w; fetch_calls := S (fetch_calls w) |}.

Definition set_published_parsed (item : Item) (d : attr (option Z)) : Item :=
  {| filename := filename item; magneturi := magneturi item;
     enclosures := enclosures item; links := links item;
     title := title item; published_parsed := d;
     infohash := infohash item |}.

Definition set_timestamp (torrent : Torrent) (ts : pytime) : Torrent :=
  {| urls := urls torrent; episodes := episodes torrent;
     name := name torrent; quality := quality torrent;
     timestamp := ts; feeder := feeder torrent |}.

Definition set_min_update_freq_secs (self : BaseFeeder) (secs : Z)
    : BaseFeeder :=
  {| cls := cls self; min_update_freq_secs := secs;
     rss_url := rss_url self; _latest := _latest self;
     _last_update_datetime := _last_update_datetime self |}.

(** What [TorrentFeeder._parse_rss_item] returns once the publication
    date is settled. *)
Definition torrent_of (self : FeederClass) (item : Item) (pubDate : pytime)
    : option Torrent :=
  let urls := remove_duplicates (collected_urls item) in
  if (length urls =? 0)%nat then None
  else
    let parse_name :=
      match attr_or_None (filename item) with
      | Some f => if truthy f then (Some f, true)
                  else (attr_or_None (title item), false)
      | None => (attr_or_None (title item), false)
      end in
    let nameparser :=
      get_nameparser self parse_name.1 parse_name.2 (get_numbering self) in
    if negb (NameParser.is_known nameparser) then None
    else Some {| urls := urls;
                 episodes := NameParser.episodes nameparser;
                 name := attr_or_None (title item);
                 quality := NameParser.quality nameparser;
                 timestamp := pubDate;
                 feeder := self |}.

(** The releases the entries of a feed parse to, in feed order, each
    entry parsed in the world the previous one left. *)
Fixpoint parsed_releases (c : FeederClass) (es : list Item) (w : World)
    : list Torrent :=
  match es with
  | [] => []
  | e :: es' =>
      match _parse_rss_item c e w with
      | (Ok (Some t), w') => t :: parsed_releases c es' w'
      | (Ok None, w') => parsed_releases c es' w'
      | (Raise _, _) => []
      end
  end.

(** No entry of the feed makes the parser raise. *)
Fixpoint parses_ok (c : FeederClass) (es : list Item) (w : World) : Prop :=
  match es with
  | [] => True
  | e :: es' =>
      match _parse_rss_item c e w with
      | (Ok _, w') => parses_ok c es' w'
      | (Raise _, _) => False
      end
  end.

(** The test of [get_latest], on the reading the clock gives next. *)
Definition due (self : BaseFeeder) (w : World) : bool :=
  match _last_update_datetime self with
  | None => true
  | Some last =>
      last + timedelta_seconds (min_update_freq_secs self)
        <? clock w (now_calls w)
  end.

(** The world [get_latest] leaves after its test: the clock has been read
    when a last update was recorded. *)
Definition check_world (self : BaseFeeder) (w : World) : World :=
  match _last_update_datetime self with
  | None => w
  | Some _ => tick w
  end.

(** The feeder and the world after [n] calls of [get_latest], whatever
    each call returned or raised. *)
Fixpoint polls (n : nat) (st : BaseFeeder * World) : BaseFeeder * World :=
  match n with
  | O => st
  | S n' => exec get_latest (polls n' st)
  end.

(** What a call leaves untouched: the configuration of the feeder, the
    clock and the transport. *)
Definition same_setup (st st' : BaseFeeder * World) : Prop :=
  cls st'.1 = cls st.1 ∧
  min_update_freq_secs st'.1 = min_update_freq_secs st.1 ∧
  rss_url st'.1 = rss_url st.1 ∧
  clock st'.2 = clock st.2 ∧
  network st'.2 = network st.2.

(** The feeder as [_update] sets it up before the feed is looked at. *)
Definition reset_at (self : BaseFeeder) (now : Z) : BaseFeeder :=
  set__latest (set__last_update_datetime self (Some now)) [].

End Feeders.

(** ** feeder.py *)

(** [(tvdb_id, season, episode)] *)
Definition EpisodeRef : Type := Z * Z * Z.

Section Feeder.
Context `{Externals}.

(** The body of the innermost loop of [run]: [w] is recorded under [key]
    and its quality unless that slot is taken. *)
Definition record_wanted (w : Torrent) (key : EpisodeRef)
    (wanted_dict : gmap EpisodeRef (gmap Z Torrent))
    : gmap EpisodeRef (gmap Z Torrent) :=
  let qual := quality w in
  let wanted_dict :=
    match wanted_dict !! key with
    | None => <[key := ∅]> wanted_dict
    | Some _ => wanted_dict
    end in
  match wanted_dict !! key with
  | Some dlables =>
      match dlables !! qual with
      | None => <[key := <[qual := w]> dlables]> wanted_dict
      | Some _ => wanted_dict
      end
  | None => wanted_dict
  end.

(** [for (season, episode) in ep.tvdb_episodes] *)
Definition record_episode (w : Torrent) (ep : TvEpisode)
    (wanted_dict : gmap EpisodeRef (gmap Z Torrent)) :=
  let tvdb_id := tvdb_id (tvshow ep) in
  foldl (λ d '(season, episode), record_wanted w (tvdb_id, season, episode) d)
        wanted_dict (tvdb_episodes ep).

(** [for ep in w.episodes] *)
Definition record_downloadable (w : Torrent)
    (wanted_dict : gmap EpisodeRef (gmap Z Torrent)) :=
  foldl (λ d ep, record_episode w ep d) wanted_dict (episodes w).

(** [wanted_dict] once the first loop of [run] is over. *)
Definition build_wanted_dict (wanted : list Torrent)
    : gmap EpisodeRef (gmap Z Torrent) :=
  foldl (λ d w, record_downloadable w d) ∅ wanted.

(** [max(qs)] for a list that is not empty. *)
Definition max_quality (q : Z) (qs : list Z) : Z := foldl Z.max q qs.

Definition known_qualities (dlables : gmap Z Torrent) : list Z :=
  let qualities := (map_to_list dlables).*1 in
  filter (λ q, q ≠ UNKNOWN_QUALITY) qualities.

(** [dlables[q]] *)
Definition getitem (dlables : gmap Z Torrent) (q : Z) : res Torrent :=
  match dlables !! q with
  | Some d => Ok d
  | None => Raise KeyError
  end.

(** The choice of [use_dlable] in the second loop of [run]. *)
Definition use_dlable (dlables : gmap Z Torrent) : res Torrent :=
  match known_qualities dlables with
  | q :: qs => getitem dlables (max_quality q qs)
  | [] => getitem dlables UNKNOWN_QUALITY
  end.

(** An expression that does not touch the state. *)
Definition eval {S A} (r : res A) : M S A := λ s, (r, s).

(** [downloaders.download(d)]: the state is the list of what has been
    handed to the downloaders so far. *)
Definition download (d : Torrent) : M (list Torrent) unit :=
  modify (λ sent, sent ++ [d]).

(** [run], from the list [feeders.get_latest()] returned. *)
Definition run (latest_downloadables : list Torrent) : M (list Torrent) unit :=
  let wanted := filter (λ s, is_wanted s = true) latest_downloadables in
  let wanted_dict := build_wanted_dict wanted in
  for_each (map_to_list wanted_dict) (λ '(key, dlables),
    d ← eval (use_dlable dlables);
    download d).

(** *** Notions used to state what [run] does *)

(** The episodes a downloadable stands for, in the order the loops of
    [run] meet them. *)
Definition episode_refs (w : Torrent) : list EpisodeRef :=
  flat_map (λ ep, map (λ '(season, episode),
                         (tvdb_id (tvshow ep), season, episode))
                      (tvdb_episodes ep))
           (episodes w).

(** [wanted_dict[key][q]], when both keys are there. *)
Definition lookup2 (wanted_dict : gmap EpisodeRef (gmap Z Torrent))
    (key : EpisodeRef) (q : Z) : option Torrent :=
  wanted_dict !! key ≫= (λ dlables, dlables !! q).

(** [w] is a candidate for [key] at quality [q]. *)
Definition offers (key : EpisodeRef) (q : Z) (w : Torrent) : Prop :=
  key ∈ episode_refs w ∧ quality w = q.

Global Instance offers_dec key q w : Decision (offers key q w).
Proof. unfold offers. apply _. Defined.

(** The first candidate of a list. *)
Definition first_offer (key : EpisodeRef) (q : Z) (l : list Torrent)
    : option Torrent :=
  head (filter (offers key q) l).

(** Every dictionary stored under an episode has a key. *)
Definition inhabited_slots (wanted_dict : gmap EpisodeRef (gmap Z Torrent))
    : Prop :=
  ∀ key dlables, wanted_dict !! key = Some dlables →
                 ∃ q, is_Some (dlables !! q).

(** [wanted_dict] as [run] builds it from what the feeders returned. *)
Definition wanted_dict_of (latest : list Torrent)
    : gmap EpisodeRef (gmap Z Torrent) :=
  build_wanted_dict (filter (λ s, is_wanted s = true) latest).

(** A wanted candidate for [key] at quality [q]. *)
Definition wanted_offer (key : EpisodeRef) (q : Z) (w : Torrent) : Prop :=
  offers key q w ∧ is_wanted w = true.

Global Instance wanted_offer_dec key q w : Decision (wanted_offer key q w).
Proof. unfold wanted_offer. apply _. Defined.

End Feeder.

(** ** Sample values

    A quality table, entries and a world on which the definitions are
    evaluated below. *)

Definition SDTV : Z := 1.
Definition HDTV : Z := 4.
Definition FULLHDTV : Z := 16.

Definition sample_episode (season episode : Z) : TvEpisode :=
  {| tvshow := {| tvdb_id := 42 |}; tvdb_episodes := [(season, episode)] |}.

(** A name parser that knows every name as episode 5 of season 1 of show
    42, without a quality. *)
Definition sample_externals : Externals :=
  {| UNKNOWN_QUALITY := 32768;
     HD720P_COMP := HDTV;
     SCENE_NUMBERING := 1;
     SceneNameParser := λ _ _ _,
       {| NameParser.is_known := true;
          NameParser.episodes := [sample_episode 1 5];
          NameParser.quality := 32768 |};
     is_wanted := λ _, true |}.

Definition empty_item : Item :=
  {| filename := Missing AttributeError;
     magneturi := Missing AttributeError;
     enclosures := Missing AttributeError;
     links := Missing AttributeError;
     title := Missing AttributeError;
     published_parsed := Missing AttributeError;
     infohash := Missing AttributeError |}.

Definition set_enclosures (item : Item) (encs : list Link) : Item :=
  {| filename := filename item; magneturi := magneturi item;
     enclosures := Has encs; links := links item;
     title := title item; published_parsed := published_parsed item;
     infohash := infohash item |}.

Definition set_magneturi (item : Item) (m : string) : Item :=
  {| filename := filename item; magneturi := Has m;
     enclosures := enclosures item; links := links item;
     title := title item; published_parsed := published_parsed item;
     infohash := infohash item |}.

(** An entry with a title, a date and a magnet link. *)
Definition magnet_item : Item :=
  set_magneturi
    (set_published_parsed (set_title empty_item "Show.Name.S01E05.HDTV")
       (Has (Some 0)))
    "magnet:?xt=urn:btih:c12fe1c06bba254a9dc9f519b335aa7c1367a88a".

(** An entry whose only enclosure is a web page address ending in
    [.torrent]. *)
Definition suffix_item : Item :=
  set_enclosures (set_title empty_item "Show.Name.S01E05.HDTV")
    [ {| type := Has "text/html";
         href := Has "http://example.com/show.s01e05.torrent" |} ].

(** An entry with a web page enclosure followed by a bittorrent one. *)
Definition mixed_item : Item :=
  set_enclosures (set_title empty_item "Show.Name.S01E05.HDTV")
    [ {| type := Has "text/html";
         href := Has "http://example.com/show.s01e05.html" |};
      {| type := Has "application/x-bittorrent";
         href := Has "http://example.com/download/1234" |} ].

Definition sample_feed : Feed := {| entries := [magnet_item] |}.

(** The first fetch brings [sample_feed], every later one nothing.  The
    clock reads 0 s, 1000 s, 1000 s and from then on 1500 s. *)
Definition sample_world : World :=
  {| clock := λ n,
       match n with
       | 0%nat => 0
       | 1%nat | 2%nat => 1000 * 1000000
       | _ => 1500 * 1000000
       end;
     now_calls := 0;
     network := λ _ n, match n with 0%nat => Some sample_feed | _ => None end;
     fetch_calls := 0 |}.

Definition sample_torrent (n : string) (q : Z) (ep : TvEpisode) : Torrent :=
  {| urls := ["magnet:?xt=urn:btih:" +:+ n];
     episodes := [ep];
     name := Some n;
     quality := q;
     timestamp := StructTime 0;
     feeder := TorrentFeederCls |}.

Definition A720 : Torrent := sample_torrent "A" HDTV (sample_episode 1 5).
Definition B720 : Torrent := sample_torrent "B" HDTV (sample_episode 1 5).
Definition B1080 : Torrent := sample_torrent "B" FULLHDTV (sample_episode 1 5).
Definition U1 : Torrent := sample_torrent "U" 32768 (sample_episode 1 5).

(** The feeder and the world after the first call of [get_latest] on
    [sample_world]. *)
Definition after_first_poll : BaseFeeder * World :=
  @polls sample_externals 1 (__init__ TorrentFeederCls, sample_world).

(** ** Further notions and sample values *)

(** The episodes the wanted downloadables of a list stand for. *)
Definition wanted_episodes `{Externals} (latest : list Torrent)
    : gset EpisodeRef :=
  list_to_set (filter (λ s, is_wanted s = true) latest ≫= episode_refs).

(** A downloadable for two episodes of one season. *)
Definition season_pack : Torrent :=
  {| urls := ["magnet:?xt=urn:btih:pack"];
     episodes := [ {| tvshow := {| tvdb_id := 42 |};
                      tvdb_episodes := [(1, 1); (1, 2)] |} ];
     name := Some "pack";
     quality := HDTV;
     timestamp := StructTime 0;
     feeder := TorrentFeederCls |}.

(** A downloadable that stands for no episode. *)
Definition no_episode : Torrent :=
  {| urls := ["magnet:?xt=urn:btih:none"];
     episodes := [];
     name := Some "none";
     quality := HDTV;
     timestamp := StructTime 0;
     feeder := TorrentFeederCls |}.

Definition U2 : Torrent := sample_torrent "V" 32768 (sample_episode 1 5).

(** The address the enclosure loop collects from an enclosure; [None] for
    an enclosure at which the loop stops. *)
Definition enclosure_url (enc : Link) : option string :=
  match type enc, href enc with
  | Has ty, Has h =>
      if String.eqb ty "application/x-bittorrent" || startswith h "magnet:"
      then Some h else None
  | _, _ => None
  end.

(** The addresses of the enclosures up to the first one the loop stops
    at. *)
Fixpoint enclosure_urls (encs : list Link) : list string :=
  match encs with
  | [] => []
  | enc :: rest =>
      match enclosure_url enc with
      | Some h => h :: enclosure_urls rest
      | None => []
      end
  end.

Definition torrent_link (h : string) : bool :=
  startswith h "magnet:" || endswith h ".torrent".

(** The magnet and [.torrent] addresses of the links up to the first link
    without an address. *)
Fixpoint link_urls (lks : list Link) : list string :=
  match lks with
  | [] => []
  | link :: rest =>
      match href link with
      | Has h => if torrent_link h then h :: link_urls rest else link_urls rest
      | Missing _ => []
      end
  end.

Definition magneturi_urls (item : Item) : list string :=
  match magneturi item with
  | Has m => if truthy m then [m] else []
  | Missing _ => []
  end.

Definition enclosures_urls (item : Item) : list string :=
  match enclosures item with
  | Has encs => enclosure_urls encs
  | Missing _ => []
  end.

Definition links_urls (item : Item) : list string :=
  match links item with
  | Has lks => link_urls lks
  | Missing _ => []
  end.

Definition has_magnet (urls : list string) : bool :=
  existsb (λ k, startswith k "magnet:") urls.

Definition infohash_urls (item : Item) (before : list string) : list string :=
  match infohash item with
  | Has h =>
      if truthy h && negb (has_magnet before)
      then ["magnet:?xt=urn:btih:" +:+ h] else []
  | Missing _ => []
  end.

(** The name [TorrentFeeder._parse_rss_item] hands to the name parser and
    whether it has an extension. *)
Definition parse_name_of (item : Item) : option string * bool :=
  match filename item with
  | Has f => if truthy f then (Some f, true)
             else (attr_or_None (title item), false)
  | Missing _ => (attr_or_None (title item), false)
  end.

(** The name parser on that name. *)
Definition nameparser_of `{Externals} (item : Item) : NameParser.t :=
  SceneNameParser (parse_name_of item).1 (parse_name_of item).2
    SCENE_NUMBERING.

(** [BaseFeeder.get_name]: the name of the class of the feeder. *)
Definition get_name (c : FeederClass) : string :=
  match c with
  | BaseFeederCls => "BaseFeeder"
  | TorrentFeederCls => "TorrentFeeder"
  | VODFeederCls => "VODFeeder"
  | ShowRSSFeederCls => "ShowRSSFeeder"
  end.

Definition set_links (item : Item) (lks : list Link) : Item :=
  {| filename := filename item; magneturi := magneturi item;
     enclosures := enclosures item; links := Has lks;
     title := title item; published_parsed := published_parsed item;
     infohash := infohash item |}.

Definition set_infohash (item : Item) (h : string) : Item :=
  {| filename := filename item; magneturi := magneturi item;
     enclosures := enclosures item; links := links item;
     title := title item; published_parsed := published_parsed item;
     infohash := Has h |}.

Definition bittorrent_enclosure (h : string) : Link :=
  {| type := Has "application/x-bittorrent"; href := Has h |}.

Definition web_enclosure (h : string) : Link :=
  {| type := Has "text/html"; href := Has h |}.

Definition link_to (h : string) : Link :=
  {| type := Missing KeyError; href := Has h |}.

Definition link_without_href : Link :=
  {| type := Has "text/html"; href := Missing KeyError |}.

(** The release [magnet_item] parses to with [sample_externals]. *)
Definition magnet_release : Torrent :=
  {| urls := ["magnet:?xt=urn:btih:c12fe1c06bba254a9dc9f519b335aa7c1367a88a"];
     episodes := [sample_episode 1 5];
     name := Some "Show.Name.S01E05.HDTV";
     quality := 32768;
     timestamp := StructTime 0;
     feeder := TorrentFeederCls |}.

(** The feeder and the world after the second call of [get_latest] on
    [sample_world]. *)
Definition after_second_poll : BaseFeeder * World :=
  @polls sample_externals 2 (__init__ TorrentFeederCls, sample_world).

(** A world whose feed has an entry without title between two entries
    with one. *)
Definition untitled_feed : Feed :=
  {| entries := [magnet_item; empty_item; magnet_item] |}.

Definition untitled_world : World :=
  {| clock := λ n, Z.of_nat n * 1000000;
     now_calls := 0;
     network := λ _ _, Some untitled_feed;
     fetch_calls := 0 |}.

(** An entry whose title carries the marker of ShowRSS. *)
Definition marker_item : Item :=
  set_title magnet_item "HD 720p: Show Name 1x05".

(** [magnet_item] with a date text that could not be parsed. *)
Definition malformed_date_item : Item :=
  set_published_parsed magnet_item (Has None).

(** The release [malformed_date_item] parses to with [sample_externals]. *)
Definition malformed_date_release : Torrent :=
  {| urls := ["magnet:?xt=urn:btih:c12fe1c06bba254a9dc9f519b335aa7c1367a88a"];
     episodes := [sample_episode 1 5];
     name := Some "Show.Name.S01E05.HDTV";
     quality := 32768;
     timestamp := NoneTime;
     feeder := TorrentFeederCls |}.

(** The release a ShowRSS feeder parses [magnet_item] to with
    [sample_externals]. *)
Definition showrss_release : Torrent :=
  {| urls := ["magnet:?xt=urn:btih:c12fe1c06bba254a9dc9f519b335aa7c1367a88a"];
     episodes := [sample_episode 1 5];
     name := Some "Show.Name.S01E05.HDTV";
     quality := 32768;
     timestamp := StructTime 0;
     feeder := ShowRSSFeederCls |}.

(** * Facts *)

Lemma bind_Ok {S A B} (m : M S A) (k : A → M S B) s a s' :
  m s = (Ok a, s') → (m ≫= k) s = k a s'.
Proof. intros Hm. unfold mbind, M_bind, bind. by rewrite Hm. Qed.

Lemma bind_Raise {S A B} (m : M S A) (k : A → M S B) s e s' :
  m s = (Raise e, s') → (m ≫= k) s = (Raise e, s').
Proof. intros Hm. unfold mbind, M_bind, bind. by rewrite Hm. Qed.

Section FeederFacts.
Context `{Externals}.
Implicit Types (d : gmap EpisodeRef (gmap Z Torrent)) (dl : gmap Z Torrent).
Implicit Types (key k : EpisodeRef) (q : Z) (w r : Torrent).

Lemma record_wanted_lookup2 w k d key q :
  lookup2 (record_wanted w k d) key q =
    match lookup2 d key q with
    | Some r => Some r
    | None => if decide (key = k ∧ q = quality w) then Some w else None
    end.
Proof.
  unfold record_wanted, lookup2.
  destruct (d !! k) as [dl|] eqn:Hk; simpl.
  - rewrite Hk. destruct (dl !! quality w) as [r0|] eqn:Hq.
    + destruct (d !! key) as [dl'|] eqn:Hkey; simpl.
      * destruct (dl' !! q) eqn:Hq'; [done|].
        case_decide as Hd; [|done]. destruct Hd as [-> ->]. congruence.
      * case_decide as Hd; [|done]. destruct Hd as [-> ->]. congruence.
    + destruct (decide (key = k)) as [->|Hne].
      * rewrite lookup_insert_eq, Hk. simpl.
        destruct (decide (q = quality w)) as [->|Hnq].
        -- rewrite lookup_insert_eq, Hq. by rewrite decide_True.
        -- rewrite lookup_insert_ne by done.
           destruct (dl !! q); [done|]. rewrite decide_False; [done|]. by intros [??].
      * rewrite lookup_insert_ne by done.
        destruct (d !! key ≫= _); [done|]. rewrite decide_False; [done|]. by intros [??].
  - rewrite lookup_insert_eq, lookup_empty.
    destruct (decide (key = k)) as [->|Hne].
    + rewrite lookup_insert_eq, Hk. simpl.
      destruct (decide (q = quality w)) as [->|Hnq].
      * rewrite lookup_insert_eq. by rewrite decide_True.
      * rewrite lookup_insert_ne by done. rewrite lookup_empty.
        rewrite decide_False; [done|]. by intros [??].
    + rewrite lookup_insert_ne by done. rewrite lookup_insert_ne by done.
      destruct (d !! key ≫= _); [done|]. rewrite decide_False; [done|]. by intros [??].
Qed.

Lemma record_downloadable_refs w d :
  record_downloadable w d =
    foldl (λ d k, record_wanted w k d) d (episode_refs w).
Proof.
  unfold record_downloadable, episode_refs.
  revert d. induction (episodes w) as [|ep eps IH]; intros d; [done|].
  simpl. rewrite foldl_app, <- IH. f_equal.
  unfold record_episode. generalize (tvdb_id (tvshow ep)). intros i.
  revert d. induction (tvdb_episodes ep) as [|[s e] ses IH']; intros d; [done|].
  simpl. by rewrite IH'.
Qed.

Lemma record_refs_lookup2 w ks d key q :
  lookup2 (foldl (λ d k, record_wanted w k d) d ks) key q =
    match lookup2 d key q with
    | Some r => Some r
    | None => if decide (key ∈ ks ∧ q = quality w) then Some w else None
    end.
Proof.
  revert d. induction ks as [|k ks IH]; intros d; simpl.
  - by destruct (lookup2 d key q).
  - rewrite IH, record_wanted_lookup2.
    destruct (lookup2 d key q); [done|].
    destruct (decide (key = k ∧ q = quality w)) as [[-> ->]|Hn].
    + rewrite decide_True; [done|]. split; [left|done].
    + destruct (decide (key ∈ ks ∧ q = quality w)) as [[Hin ->]|Hn'].
      * rewrite decide_True; [done|]. split; [by right|done].
      * rewrite decide_False; [done|]. intros [Hin ->].
        apply elem_of_cons in Hin as [->|Hin]; [by apply Hn|by apply Hn'].
Qed.

Lemma record_downloadable_lookup2 w d key q :
  lookup2 (record_downloadable w d) key q =
    match lookup2 d key q with
    | Some r => Some r
    | None => if decide (offers key q w) then Some w else None
    end.
Proof.
  rewrite record_downloadable_refs, record_refs_lookup2.
  destruct (lookup2 d key q); [done|].
  unfold offers. destruct (decide (key ∈ episode_refs w ∧ q = quality w)) as [[? ->]|Hn].
  - by rewrite decide_True.
  - rewrite decide_False; [done|]. intros [? <-]. by apply Hn.
Qed.

(** A slot that is taken keeps its downloadable, a free slot goes to the
    first candidate. *)
Lemma fold_wanted_lookup2 (l : list Torrent) d key q :
  lookup2 (foldl (λ d w, record_downloadable w d) d l) key q =
    match lookup2 d key q with
    | Some r => Some r
    | None => first_offer key q l
    end.
Proof.
  unfold first_offer. revert d. induction l as [|w l IH]; intros d; simpl.
  - by destruct (lookup2 d key q).
  - rewrite IH, record_downloadable_lookup2.
    destruct (lookup2 d key q); [done|].
    rewrite filter_cons. by destruct (decide (offers key q w)).
Qed.

Lemma build_wanted_dict_lookup2 (l : list Torrent) key q :
  lookup2 (build_wanted_dict l) key q = first_offer key q l.
Proof.
  unfold build_wanted_dict. rewrite fold_wanted_lookup2.
  unfold lookup2. by rewrite lookup_empty.
Qed.

Lemma record_wanted_inhabited w k d :
  inhabited_slots d → inhabited_slots (record_wanted w k d).
Proof.
  intros Hd key dl. unfold record_wanted.
  destruct (d !! k) as [dl0|] eqn:Hk.
  - rewrite Hk. destruct (dl0 !! quality w) eqn:Hq; [apply Hd|].
    destruct (decide (key = k)) as [->|Hne].
    + rewrite lookup_insert_eq. intros [= <-]. exists (quality w).
      rewrite lookup_insert_eq. by eexists.
    + rewrite lookup_insert_ne by done. apply Hd.
  - rewrite lookup_insert_eq, lookup_empty.
    destruct (decide (key = k)) as [->|Hne].
    + rewrite lookup_insert_eq. intros [= <-]. exists (quality w).
      rewrite lookup_insert_eq. by eexists.
    + rewrite !lookup_insert_ne by done. apply Hd.
Qed.

Lemma build_wanted_dict_inhabited (l : list Torrent) :
  inhabited_slots (build_wanted_dict l).
Proof.
  unfold build_wanted_dict.
  assert (Hfold : ∀ d, inhabited_slots d →
            inhabited_slots (foldl (λ d w, record_downloadable w d) d l)).
  { induction l as [|w l IH]; intros d Hd; [done|]. simpl. apply IH.
    rewrite record_downloadable_refs. clear IH.
    revert d Hd. induction (episode_refs w) as [|k ks IH]; intros d Hd; [done|].
    simpl. apply IH. by apply record_wanted_inhabited. }
  apply Hfold. intros key dl. by rewrite lookup_empty.
Qed.

Lemma head_filter_first {A} (P : A → Prop) `{!∀ x, Decision (P x)}
    (l : list A) (r : A) :
  head (filter P l) = Some r ↔
  ∃ n, l !! n = Some r ∧ P r ∧
       ∀ m x, (m < n)%nat → l !! m = Some x → ¬ P x.
Proof.
  induction l as [|a l IH].
  - split; [done|]. by intros (n & Hn & _).
  - rewrite filter_cons. destruct (decide (P a)) as [Ha|Ha]; simpl.
    + split.
      * intros [= ->]. exists 0%nat. split_and!; [done..|]. intros m x Hm. lia.
      * intros (n & Hn & Hr & Hmin). destruct n as [|n]; [by simplify_eq/=|].
        destruct (Hmin 0%nat a); [lia|done..].
    + rewrite IH. split.
      * intros (n & Hn & Hr & Hmin). exists (S n). split_and!; [done..|].
        intros [|m] x Hm Hx; simplify_eq/=; [done|]. eapply Hmin; [|done]. lia.
      * intros (n & Hn & Hr & Hmin). destruct n as [|n]; [by simplify_eq/=|].
        exists n. split_and!; [done..|]. intros m x Hm Hx.
        apply (Hmin (S m) x); [lia|done].
Qed.

Lemma head_filter_is_Some {A} (P : A → Prop) `{!∀ x, Decision (P x)}
    (l : list A) (x : A) :
  x ∈ l → P x → is_Some (head (filter P l)).
Proof.
  intros Hin HP. destruct (filter P l) as [|y ys] eqn:Hf; [|by eexists].
  destruct (filter_nil_not_elem_of P l x); done.
Qed.

Lemma max_quality_ge q (qs : list Z) x : x ∈ q :: qs → x ≤ max_quality q qs.
Proof.
  unfold max_quality. revert q x. induction qs as [|y qs IH]; intros q x Hx; simpl.
  - apply list_elem_of_singleton in Hx as ->. lia.
  - assert (Hmono : ∀ a, a ≤ foldl Z.max a qs).
    { intros a. apply IH. left. }
    apply elem_of_cons in Hx as [->|Hx].
    + etrans; [|apply Hmono]. lia.
    + apply elem_of_cons in Hx as [->|Hx].
      * etrans; [|apply Hmono]. lia.
      * apply IH. by right.
Qed.

Lemma max_quality_elem q (qs : list Z) : max_quality q qs ∈ q :: qs.
Proof.
  unfold max_quality. revert q. induction qs as [|y qs IH]; intros q; simpl.
  - left.
  - pose proof (IH (q `max` y)) as Hm. apply elem_of_cons in Hm as [Heq|Hin].
    + rewrite Heq. destruct (Z.max_spec q y) as [[_ ->]|[_ ->]]; [right|]; left.
    + by do 2 right.
Qed.

Lemma elem_of_known_qualities dl q :
  q ∈ known_qualities dl ↔ q ≠ UNKNOWN_QUALITY ∧ is_Some (dl !! q).
Proof.
  unfold known_qualities. rewrite list_elem_of_filter, list_elem_of_fmap.
  split.
  - intros (Hq & [q' r] & -> & Hin). split; [done|].
    apply elem_of_map_to_list in Hin. by eexists.
  - intros (Hq & r & Hr). split; [done|]. exists (q, r). split; [done|].
    by apply elem_of_map_to_list.
Qed.

(** With a known quality recorded, [use_dlable] is the entry of the
    largest one. *)
Lemma use_dlable_known dl q0 :
  q0 ≠ UNKNOWN_QUALITY → is_Some (dl !! q0) →
  ∃ m r, use_dlable dl = Ok r ∧ dl !! m = Some r ∧ m ≠ UNKNOWN_QUALITY ∧
         ∀ q, q ≠ UNKNOWN_QUALITY → is_Some (dl !! q) → q ≤ m.
Proof.
  intros Hq0 Hsome. unfold use_dlable.
  destruct (known_qualities dl) as [|q qs] eqn:Hk.
  - assert (Hin : q0 ∈ known_qualities dl) by (by apply elem_of_known_qualities).
    rewrite Hk in Hin. by apply elem_of_nil in Hin.
  - pose proof (max_quality_elem q qs) as Hmax. rewrite <- Hk in Hmax.
    apply elem_of_known_qualities in Hmax as [Hne [r Hr]].
    exists (max_quality q qs), r. unfold getitem. rewrite Hr.
    split_and!; [done..|]. intros q' Hq' Hs. apply max_quality_ge.
    rewrite <- Hk. by apply elem_of_known_qualities.
Qed.

(** With no known quality recorded, [use_dlable] is the entry of
    [UNKNOWN_QUALITY], which is there when the dictionary has any key. *)
Lemma use_dlable_unknown dl :
  (∃ q, is_Some (dl !! q)) → known_qualities dl = [] →
  ∃ r, use_dlable dl = Ok r ∧ dl !! UNKNOWN_QUALITY = Some r.
Proof.
  intros [q [r Hr]] Hk. unfold use_dlable, getitem. rewrite Hk.
  destruct (decide (q = UNKNOWN_QUALITY)) as [->|Hne].
  - rewrite Hr. by eexists.
  - assert (Hin : q ∈ known_qualities dl).
    { apply elem_of_known_qualities. split; [done|by eexists]. }
    rewrite Hk in Hin. by apply elem_of_nil in Hin.
Qed.

Lemma use_dlable_total dl :
  (∃ q, is_Some (dl !! q)) → ∃ r, use_dlable dl = Ok r.
Proof.
  intros Hinh. destruct (known_qualities dl) as [|q qs] eqn:Hk.
  - destruct (use_dlable_unknown dl Hinh Hk) as (r & Hr & _). by eexists.
  - assert (Hin : q ∈ known_qualities dl) by (rewrite Hk; left).
    apply elem_of_known_qualities in Hin as [Hne Hs].
    destruct (use_dlable_known dl q Hne Hs) as (m & r & Hr & _). by eexists.
Qed.

(** What [use_dlable] returns sits in the dictionary under some key. *)
Lemma use_dlable_lookup dl r :
  use_dlable dl = Ok r → ∃ q, dl !! q = Some r.
Proof.
  unfold use_dlable, getitem.
  destruct (known_qualities dl) as [|q qs].
  - destruct (dl !! UNKNOWN_QUALITY) eqn:E; intros [= <-]. by eexists.
  - destruct (dl !! max_quality q qs) eqn:E; intros [= <-]. by eexists.
Qed.

(** The second loop of [run] hands over one choice per episode, in the
    order of the dictionary. *)
Lemma dispatch_loop (kds : list (EpisodeRef * gmap Z Torrent)) (sent0 : list Torrent) :
  (∀ kd, kd ∈ kds → ∃ q, is_Some (kd.2 !! q)) →
  ∃ sent,
    for_each kds (λ '(key, dlables), d ← eval (use_dlable dlables); download d) sent0
      = (Ok tt, sent0 ++ sent) ∧
    Forall2 (λ kd r, use_dlable kd.2 = Ok r) kds sent.
Proof.
  revert sent0. induction kds as [|[k dl] kds IH]; intros sent0 Hinh.
  - exists []. split; [by rewrite app_nil_r|constructor].
  - destruct (use_dlable_total dl) as [r Hr].
    { apply (Hinh (k, dl)). left. }
    destruct (IH (sent0 ++ [r])) as (sent & Hrun & Hall).
    { intros kd Hkd. apply Hinh. by right. }
    exists (r :: sent). split; [|by constructor].
    simpl. rewrite (bind_Ok _ _ sent0 tt (sent0 ++ [r])).
    + rewrite Hrun. by rewrite <- app_assoc.
    + unfold mbind, M_bind, bind, eval, download, modify. by rewrite Hr.
Qed.

Lemma run_sent (latest : list Torrent) :
  ∃ sent,
    run latest [] = (Ok tt, sent) ∧
    Forall2 (λ kd r, use_dlable kd.2 = Ok r)
      (map_to_list (build_wanted_dict (filter (λ s, is_wanted s = true) latest)))
      sent.
Proof.
  unfold run.
  destruct (dispatch_loop
    (map_to_list (build_wanted_dict (filter (λ s, is_wanted s = true) latest))) [])
    as (sent & Hrun & Hall).
  - intros [k dl] Hin. apply elem_of_map_to_list in Hin.
    simpl. by eapply build_wanted_dict_inhabited.
  - exists sent. by split.
Qed.

Lemma wanted_dict_of_lookup2 (latest : list Torrent) key q :
  lookup2 (wanted_dict_of latest) key q =
    head (filter (wanted_offer key q) latest).
Proof.
  unfold wanted_dict_of. rewrite build_wanted_dict_lookup2.
  unfold first_offer. by rewrite list_filter_filter.
Qed.

Lemma lookup2_Some d key q r :
  lookup2 d key q = Some r ↔ ∃ dl, d !! key = Some dl ∧ dl !! q = Some r.
Proof.
  unfold lookup2. destruct (d !! key) as [dl|]; simpl.
  - split; [by exists dl|]. by intros (dl' & [= <-] & ?).
  - split; [done|]. by intros (dl' & ? & ?).
Qed.

(** Whatever is stored at [wanted_dict[key][q]] is the first wanted
    candidate of the input for that slot. *)
Lemma wanted_dict_of_slot (latest : list Torrent) key dl q r :
  wanted_dict_of latest !! key = Some dl → dl !! q = Some r →
  ∃ n, latest !! n = Some r ∧ wanted_offer key q r ∧
       ∀ m x, (m < n)%nat → latest !! m = Some x → ¬ wanted_offer key q x.
Proof.
  intros Hkey Hq. apply (head_filter_first (wanted_offer key q)).
  rewrite <- wanted_dict_of_lookup2. apply lookup2_Some. eauto.
Qed.

Lemma wanted_dict_of_offer (latest : list Torrent) key q w :
  w ∈ latest → wanted_offer key q w →
  ∃ dl r, wanted_dict_of latest !! key = Some dl ∧ dl !! q = Some r.
Proof.
  intros Hin Hoff.
  destruct (head_filter_is_Some (wanted_offer key q) latest w Hin Hoff) as [r Hr].
  rewrite <- wanted_dict_of_lookup2 in Hr.
  apply lookup2_Some in Hr as (dl & ? & ?). eauto.
Qed.

(** C2.  For every list of downloadables and every episode that a wanted
    one with a known quality refers to, [run] picks for that episode, and
    hands to the downloaders, a wanted downloadable of that episode whose
    quality is known and is the largest known quality any wanted
    downloadable of the episode has, whatever the position of the sources
    in the list. *)
Theorem run_selects_max_known_quality (latest : list Torrent) key w :
  w ∈ latest → is_wanted w = true → key ∈ episode_refs w →
  quality w ≠ UNKNOWN_QUALITY →
  ∃ dlables winner sent i,
    wanted_dict_of latest !! key = Some dlables ∧
    use_dlable dlables = Ok winner ∧
    run latest [] = (Ok tt, sent) ∧
    map_to_list (wanted_dict_of latest) !! i = Some (key, dlables) ∧
    sent !! i = Some winner ∧
    winner ∈ latest ∧ is_wanted winner = true ∧ key ∈ episode_refs winner ∧
    dlables !! quality winner = Some winner ∧
    quality winner ≠ UNKNOWN_QUALITY ∧
    ∀ w', w' ∈ latest → is_wanted w' = true → key ∈ episode_refs w' →
          quality w' ≠ UNKNOWN_QUALITY → quality w' ≤ quality winner.
Proof.
  intros Hin Hw Hkey Hq.
  destruct (wanted_dict_of_offer latest key (quality w) w) as (dl & r0 & Hdl & Hr0);
    [done|by split|].
  destruct (use_dlable_known dl (quality w)) as (m & r & Hr & Hm & Hne & Hmax);
    [done|by eexists|].
  destruct (wanted_dict_of_slot latest key dl m r Hdl Hm)
    as (n & Hn & [[Hrk Hrq] Hrw] & _).
  destruct (run_sent latest) as (sent & Hrun & Hall).
  assert (Hl : (key, dl) ∈ map_to_list (wanted_dict_of latest))
    by (by apply elem_of_map_to_list).
  apply list_elem_of_lookup in Hl as [i Hi].
  destruct (Forall2_lookup_l _ _ _ i _ Hall Hi) as (r' & Hr' & Huse).
  simpl in Huse. rewrite Hr in Huse. injection Huse as <-.
  exists dl, r, sent, i. split_and!; try done.
  - by eapply list_elem_of_lookup_2.
  - by rewrite Hrq.
  - by rewrite Hrq.
  - intros w' Hin' Hw' Hkey' Hq'. rewrite Hrq. apply Hmax; [done|].
    destruct (wanted_dict_of_offer latest key (quality w') w')
      as (dl' & r1 & Hdl' & Hr1); [done|by split|].
    rewrite Hdl in Hdl'. injection Hdl' as <-. by eexists.
Qed.




(** C7.  For every episode present in [wanted_dict], when no quality
    other than [UNKNOWN_QUALITY] is recorded for it, the lookup at
    [UNKNOWN_QUALITY] finds an entry and [use_dlable] is that entry; the
    whole [run] ends without an exception. *)
Theorem fallback_lookup_succeeds (latest : list Torrent) key dlables :
  wanted_dict_of latest !! key = Some dlables →
  known_qualities dlables = [] →
  (∃ r, dlables !! UNKNOWN_QUALITY = Some r ∧ use_dlable dlables = Ok r) ∧
  (∃ sent, run latest [] = (Ok tt, sent)).
Proof.
  intros Hkey Hk. split.
  - destruct (use_dlable_unknown dlables) as (r & Huse & Hr); [|done|by exists r].
    by eapply build_wanted_dict_inhabited.
  - destruct (run_sent latest) as (sent & Hrun & _). by exists sent.
Qed.
End FeederFacts.

Section FeedersFacts.
Context `{Externals}.
Implicit Types (self : BaseFeeder) (w : World) (item : Item) (c : FeederClass).

Lemma caught_all e : caught e = true.
Proof. by destruct e. Qed.

Lemma read_pubDate_eq item w :
  read_pubDate item w =
    match published_parsed item with
    | Has v => (Ok (parsed_date v), w)
    | Missing _ => (Ok (DateTime (clock w (now_calls w))), tick w)
    end.
Proof.
  unfold read_pubDate. destruct (published_parsed item) as [d|e]; [done|].
  by rewrite caught_all.
Qed.

(** [TorrentFeeder._parse_rss_item] reads the clock only for an entry
    without a date, and returns [torrent_of] at the date it settled on. *)
Lemma TorrentFeeder_parse_rss_item_eq c item w :
  TorrentFeeder_parse_rss_item c item w =
    match published_parsed item with
    | Has v => (Ok (torrent_of c item (parsed_date v)), w)
    | Missing _ =>
        (Ok (torrent_of c item (DateTime (clock w (now_calls w)))), tick w)
    end.
Proof.
  unfold TorrentFeeder_parse_rss_item, torrent_of, mbind, M_bind, bind.
  rewrite read_pubDate_eq.
  destruct (published_parsed item);
    (destruct (length _ =? 0)%nat; [done|]);
    (destruct (attr_or_None (filename item)) as [f|]; [destruct (truthy f)|]);
    simpl; by destruct (negb _).
Qed.

Lemma torrent_of_urls c item ts t :
  torrent_of c item ts = Some t →
  urls t = remove_duplicates (collected_urls item) ∧ urls t ≠ [].
Proof.
  unfold torrent_of.
  destruct (length _ =? 0)%nat eqn:Hlen; [done|].
  destruct (negb _); [done|]. intros [= <-]. simpl. split; [done|].
  intros Hnil. by rewrite Hnil in Hlen.
Qed.

Lemma torrent_of_no_urls c item ts :
  remove_duplicates (collected_urls item) = [] → torrent_of c item ts = None.
Proof. intros Hnil. unfold torrent_of. by rewrite Hnil. Qed.

Lemma TorrentFeeder_parse_rss_item_result c item w :
  ∃ ts, (TorrentFeeder_parse_rss_item c item w).1 = Ok (torrent_of c item ts).
Proof.
  rewrite TorrentFeeder_parse_rss_item_eq.
  destruct (published_parsed item); by eexists.
Qed.

Lemma collected_urls_set_title item t :
  collected_urls (set_title item t) = collected_urls item.
Proof. reflexivity. Qed.

(** What [ShowRSSFeeder._parse_rss_item] returns comes from
    [TorrentFeeder._parse_rss_item] on an entry with the same links, with
    nothing but the quality changed. *)
Lemma ShowRSSFeeder_parse_rss_item_Some item w t :
  (ShowRSSFeeder_parse_rss_item item w).1 = Ok (Some t) →
  ∃ ts t0, torrent_of ShowRSSFeederCls
             (match title item with
              | Has s => if startswith s "HD 720p: "
                         then set_title item (slice_from 9 s) else item
              | Missing _ => item
              end) ts = Some t0 ∧
           urls t = urls t0.
Proof.
  unfold ShowRSSFeeder_parse_rss_item.
  destruct (title item) as [s|e] eqn:Ht; [|done].
  unfold mbind, M_bind, bind. simpl.
  destruct (startswith s "HD 720p: ").
  - destruct (TorrentFeeder_parse_rss_item_result ShowRSSFeederCls
                (set_title item (slice_from 9 s)) w) as [ts Hts].
    destruct (TorrentFeeder_parse_rss_item _ _ w) as [[[t0|]|] w'] eqn:Hp;
      simpl in *; try done.
    injection Hts as Hts.
    destruct (_ && _); intros [= <-]; exists ts, t0; by split.
  - destruct (TorrentFeeder_parse_rss_item_result ShowRSSFeederCls item w)
      as [ts Hts].
    destruct (TorrentFeeder_parse_rss_item _ _ w) as [[[t0|]|] w'] eqn:Hp;
      simpl in *; try done.
    injection Hts as Hts. intros [= <-]. exists ts, t0. by split.
Qed.

(** C6.  When the set of collected links of an entry is empty, the parser
    of a torrent feeder returns [None], and no feeder returns a
    [Torrent]; a [Torrent] a feeder returns carries the collected links,
    of which there is at least one. *)
Theorem no_urls_no_release c item w :
  (remove_duplicates (collected_urls item) = [] →
     (TorrentFeeder_parse_rss_item c item w).1 = Ok None ∧
     ∀ t, (_parse_rss_item c item w).1 ≠ Ok (Some t)) ∧
  (∀ t, (_parse_rss_item c item w).1 = Ok (Some t) →
     urls t = remove_duplicates (collected_urls item) ∧ urls t ≠ []).
Proof.
  assert (Hsome : ∀ t, (_parse_rss_item c item w).1 = Ok (Some t) →
            urls t = remove_duplicates (collected_urls item) ∧ urls t ≠ []).
  { intros t. destruct c; simpl; try done.
    - destruct (TorrentFeeder_parse_rss_item_result TorrentFeederCls item w)
        as [ts ->]. intros [= Ht]. by eapply torrent_of_urls.
    - intros Ht. apply ShowRSSFeeder_parse_rss_item_Some in Ht
        as (ts & t0 & Ht0 & ->).
      apply torrent_of_urls in Ht0.
      by destruct (title item) as [s|]; [destruct (startswith s _)|]. }
  split; [|done]. intros Hnil. split.
  - destruct (TorrentFeeder_parse_rss_item_result c item w) as [ts ->].
    by rewrite torrent_of_no_urls.
  - intros t Ht. apply Hsome in Ht as [Hu Hne]. congruence.
Qed.

Lemma torrent_of_timestamp c item ts1 ts2 :
  torrent_of c item ts2 = (λ t, set_timestamp t ts2) <$> torrent_of c item ts1.
Proof.
  unfold torrent_of. destruct (length _ =? 0)%nat; [done|].
  by destruct (negb _).
Qed.

Lemma torrent_of_set_published_parsed c item a ts :
  torrent_of c (set_published_parsed item a) ts = torrent_of c item ts.
Proof. reflexivity. Qed.

(** An entry without date against the same entry with the value [d] for
    its date. *)
Lemma _parse_rss_item_without_date c item e (d : option Z) w :
  published_parsed item = Missing e →
  (_parse_rss_item c item w).1 =
    match (_parse_rss_item c (set_published_parsed item (Has d)) w).1 with
    | Ok (Some t) =>
        Ok (Some (set_timestamp t (DateTime (clock w (now_calls w)))))
    | r => r
    end.
Proof.
  intros Hpub.
  assert (Htor : ∀ c' item', published_parsed item' = Missing e →
    (TorrentFeeder_parse_rss_item c' item' w).1 =
      Ok ((λ t, set_timestamp t (DateTime (clock w (now_calls w)))) <$>
          torrent_of c' item' (parsed_date d)) ∧
    (TorrentFeeder_parse_rss_item c' (set_published_parsed item' (Has d)) w).1 =
      Ok (torrent_of c' item' (parsed_date d))).
  { intros c' item' Hpub'. rewrite !TorrentFeeder_parse_rss_item_eq, Hpub'. simpl.
    split; [|done]. f_equal. apply torrent_of_timestamp. }
  destruct c; simpl; try done.
  - destruct (Htor TorrentFeederCls item Hpub) as [-> ->].
    by destruct (torrent_of _ _ _).
  - unfold ShowRSSFeeder_parse_rss_item. cbn [title set_published_parsed].
    destruct (title item) as [s|e']; [|done].
    unfold mbind, M_bind, bind, getattr, ret.
    destruct (startswith s "HD 720p: "); [generalize (slice_from 9 s); intros s'|].
    + destruct (Htor ShowRSSFeederCls (set_title item s') Hpub) as [Hl Hr].
      change (set_title (set_published_parsed item (Has d)) s')
        with (set_published_parsed (set_title item s') (Has d)).
      destruct (TorrentFeeder_parse_rss_item _ (set_title item _) w)
        as [r1 w1]; cbn [fst] in Hl; subst r1.
      destruct (TorrentFeeder_parse_rss_item _ (set_published_parsed _ _) w)
        as [r2 w2]; cbn [fst] in Hr; subst r2.
      destruct (torrent_of _ _ _) as [t|]; simpl; [|done].
      by destruct (_ && _).
    + destruct (Htor ShowRSSFeederCls item Hpub) as [Hl Hr].
      destruct (TorrentFeeder_parse_rss_item _ item w)
        as [r1 w1]; cbn [fst] in Hl; subst r1.
      destruct (TorrentFeeder_parse_rss_item _ (set_published_parsed _ _) w)
        as [r2 w2]; cbn [fst] in Hr; subst r2.
      by destruct (torrent_of _ _ _) as [t|].
Qed.

(** X20.  When reading the publication date of an entry raises, the
    clock is read and the release gets that reading as its timestamp: the
    parser returns a release exactly when it returns one for the same
    entry with a date, and the two releases differ in nothing but the
    timestamp. *)
Theorem absent_date_is_now c item e (d : option Z) w :
  published_parsed item = Missing e →
  read_pubDate item w = (Ok (DateTime (clock w (now_calls w))), tick w) ∧
  match (_parse_rss_item c (set_published_parsed item (Has d)) w).1 with
  | Ok (Some t) =>
      ∃ r, (_parse_rss_item c item w).1 = Ok (Some r) ∧
           timestamp r = DateTime (clock w (now_calls w)) ∧
           urls r = urls t ∧ episodes r = episodes t ∧ name r = name t ∧
           quality r = quality t ∧ feeder r = feeder t
  | Ok None => (_parse_rss_item c item w).1 = Ok None
  | Raise e' => (_parse_rss_item c item w).1 = Raise e'
  end.
Proof.
  intros Hpub. split; [by rewrite read_pubDate_eq, Hpub|].
  rewrite (_parse_rss_item_without_date c item e d w Hpub).
  destruct (_parse_rss_item c (set_published_parsed item (Has d)) w).1
    as [[t|]|e']; [|done..].
  eexists. split; [done|]. by split_and!.
Qed.

(** A date the entry holds as [None] is handed on as it is, and the clock
    is not read. *)
Lemma TorrentFeeder_parse_rss_item_None_date c item w t :
  published_parsed item = Has None →
  (TorrentFeeder_parse_rss_item c item w).1 = Ok (Some t) →
  timestamp t = NoneTime ∧ (TorrentFeeder_parse_rss_item c item w).2 = w.
Proof.
  intros Hpub. rewrite TorrentFeeder_parse_rss_item_eq, Hpub. simpl.
  unfold torrent_of. destruct (length _ =? 0)%nat; [done|].
  destruct (negb _); [done|]. by intros [= <-].
Qed.

Lemma startswith_app (p s : string) : startswith (p +:+ s) p = true.
Proof.
  unfold startswith. induction p as [|a p IH]; simpl.
  - by destruct s.
  - by destruct (ascii_dec a a).
Qed.

Lemma ShowRSSFeeder_parse_rss_item_marker item rest w :
  title item = Has ("HD 720p: " +:+ rest) →
  HD720P_COMP ≠ 0 →
  ShowRSSFeeder_parse_rss_item item w =
    (match (TorrentFeeder_parse_rss_item ShowRSSFeederCls
              (set_title item rest) w).1 with
     | Ok (Some t) =>
         Ok (Some (if decide (quality t = UNKNOWN_QUALITY)
                   then set_quality t HD720P_COMP else t))
     | r => r
     end,
     (TorrentFeeder_parse_rss_item ShowRSSFeederCls (set_title item rest) w).2).
Proof.
  intros Ht Hq. unfold ShowRSSFeeder_parse_rss_item. rewrite Ht.
  unfold mbind, M_bind, bind, getattr, ret. rewrite startswith_app.
  change (slice_from 9 ("HD 720p: " +:+ rest)) with rest.
  destruct (TorrentFeeder_parse_rss_item _ _ w) as [[[t|]|e] w']; simpl; try done.
  unfold known_quality_true.
  destruct (decide (quality t = UNKNOWN_QUALITY)) as [Heq|Hne].
  - rewrite Heq, Z.eqb_refl. simpl.
    destruct (HD720P_COMP =? 0) eqn:E; [|done]. by apply Z.eqb_eq in E.
  - destruct (quality t =? UNKNOWN_QUALITY) eqn:E; [|done].
    by apply Z.eqb_eq in E.
Qed.

Lemma torrent_of_name c item ts t :
  torrent_of c item ts = Some t → name t = attr_or_None (title item).
Proof.
  unfold torrent_of. destruct (length _ =? 0)%nat; [done|].
  destruct (negb _); [done|]. by intros [= <-].
Qed.

(** C8.  For an entry whose title starts with the marker, the ShowRSS
    feeder hands the entry to the torrent parser with the marker cut off
    its title, and returns a release exactly when that parser does: the
    release is named by the title without the marker, its quality is
    [HD720P_COMP] if the parser gave [UNKNOWN_QUALITY] and the quality the
    parser gave otherwise, and everything else is what the parser gave. *)
Theorem showrss_marker_quality item rest w :
  title item = Has ("HD 720p: " +:+ rest) →
  HD720P_COMP ≠ 0 →
  (ShowRSSFeeder_parse_rss_item item w).2 =
    (TorrentFeeder_parse_rss_item ShowRSSFeederCls (set_title item rest) w).2 ∧
  match (TorrentFeeder_parse_rss_item ShowRSSFeederCls
           (set_title item rest) w).1 with
  | Ok (Some t) =>
      ∃ r, (ShowRSSFeeder_parse_rss_item item w).1 = Ok (Some r) ∧
           name t = Some rest ∧ name r = Some rest ∧
           (quality t = UNKNOWN_QUALITY → quality r = HD720P_COMP) ∧
           (quality t ≠ UNKNOWN_QUALITY → quality r = quality t) ∧
           (quality r ≠ quality t ↔
              quality t = UNKNOWN_QUALITY ∧ HD720P_COMP ≠ UNKNOWN_QUALITY) ∧
           urls r = urls t ∧ episodes r = episodes t ∧
           timestamp r = timestamp t ∧ feeder r = feeder t
  | Ok None => (ShowRSSFeeder_parse_rss_item item w).1 = Ok None
  | Raise e => (ShowRSSFeeder_parse_rss_item item w).1 = Raise e
  end.
Proof.
  intros Ht Hq. rewrite (ShowRSSFeeder_parse_rss_item_marker item rest w Ht Hq).
  split; [done|]. simpl.
  destruct (TorrentFeeder_parse_rss_item_result ShowRSSFeederCls
              (set_title item rest) w) as [ts Hts].
  destruct (TorrentFeeder_parse_rss_item _ _ w) as [[[t|]|e] w'];
    simpl in *; [|done..].
  injection Hts as Hts. symmetry in Hts.
  pose proof (torrent_of_name _ _ _ _ Hts) as Hname. simpl in Hname.
  eexists. split; [done|].
  destruct (decide (quality t = UNKNOWN_QUALITY)) as [Heq|Hne]; simpl.
  - split_and!; try done.
    split; [intros Hd; split; [done|congruence]|intros [_ ?]; congruence].
  - split_and!; try done. split; [done|by intros [? _]].
Qed.
End FeedersFacts.

Section RefreshFacts.
Context `{Externals}.
Implicit Types (self : BaseFeeder) (w : World) (item : Item) (c : FeederClass).

(** Parsing an entry leaves the world as it is or reads the clock once. *)
Lemma _parse_rss_item_world c item w :
  (_parse_rss_item c item w).2 = w ∨ (_parse_rss_item c item w).2 = tick w.
Proof.
  assert (Htor : ∀ c' item',
    (TorrentFeeder_parse_rss_item c' item' w).2 = w ∨
    (TorrentFeeder_parse_rss_item c' item' w).2 = tick w).
  { intros c' item'. rewrite TorrentFeeder_parse_rss_item_eq.
    destruct (published_parsed item'); [by left|by right]. }
  destruct c; simpl; try by left.
  - apply Htor.
  - unfold ShowRSSFeeder_parse_rss_item.
    destruct (title item) as [s|e]; [|by left].
    unfold mbind, M_bind, bind, getattr, ret.
    destruct (startswith s "HD 720p: ").
    + destruct (Htor ShowRSSFeederCls (set_title item (slice_from 9 s))) as [Hw|Hw];
        destruct (TorrentFeeder_parse_rss_item _ _ w) as [[[t|]|e] w'];
        simpl in *; subst w'; try destruct (_ && _); auto.
    + destruct (Htor ShowRSSFeederCls item) as [Hw|Hw];
        destruct (TorrentFeeder_parse_rss_item _ _ w) as [[[t|]|e] w'];
        simpl in *; subst w'; auto.
Qed.

Lemma parse_and_store_eq entry self w :
  parse_and_store entry (self, w) =
    match _parse_rss_item (cls self) entry w with
    | (Ok (Some i), w') =>
        (Ok tt, (set__latest self (_latest self ++ [i]), w'))
    | (Ok None, w') => (Ok tt, (self, w'))
    | (Raise e, w') => (Raise e, (self, w'))
    end.
Proof.
  unfold parse_and_store, mbind, M_bind, bind, the_self, in_world.
  by destruct (_parse_rss_item (cls self) entry w) as [[[i|]|e] w'].
Qed.

Lemma store_loop (es : list Item) self w :
  let out := for_each es parse_and_store (self, w) in
  same_setup (self, w) out.2 ∧
  _last_update_datetime out.2.1 = _last_update_datetime self ∧
  fetch_calls out.2.2 = fetch_calls w ∧
  (parses_ok (cls self) es w →
     out.1 = Ok tt ∧
     _latest out.2.1 = _latest self ++ parsed_releases (cls self) es w).
Proof.
  revert self w. induction es as [|e es IH]; intros self w; simpl.
  - split_and!; try done. intros _. by rewrite app_nil_r.
  - unfold mbind, M_bind, bind. rewrite parse_and_store_eq.
    pose proof (_parse_rss_item_world (cls self) e w) as Hw.
    destruct (_parse_rss_item (cls self) e w) as [[[i|]|ex] w'] eqn:Hp;
      simpl in Hw;
      (assert (Hcw : clock w' = clock w ∧ network w' = network w ∧
                     fetch_calls w' = fetch_calls w)
         by (by destruct Hw as [->| ->]));
      destruct Hcw as (Hc & Hn & Hf).
    + specialize (IH (set__latest self (_latest self ++ [i])) w').
      destruct (for_each es parse_and_store _) as [r [self2 w2]].
      unfold same_setup in *. simpl in *.
      destruct IH as ((?&?&?&?&?) & ? & ? & IH).
      split_and!; try congruence.
      intros Hok. destruct (IH Hok) as [-> ->].
      split; [done|]. by rewrite <- app_assoc.
    + specialize (IH self w').
      destruct (for_each es parse_and_store _) as [r [self2 w2]].
      unfold same_setup in *. simpl in *.
      destruct IH as ((?&?&?&?&?) & ? & ? & IH).
      split_and!; try congruence. done.
    + unfold same_setup. simpl. split_and!; done.
Qed.

Lemma _update_eq self w :
  _update (self, w) =
    let self1 := reset_at self (clock w (now_calls w)) in
    let w1 := tick (fetched w) in
    match network w (rss_url self) (fetch_calls w) with
    | Some feed =>
        match for_each (entries feed) parse_and_store (self1, w1) with
        | (Ok _, st) => (Ok true, st)
        | (Raise e, st) => (Raise e, st)
        end
    | None => (Ok false, (self1, w1))
    end.
Proof.
  unfold _update, mbind, M_bind, bind, the_self, in_world, on_self, modify,
    feedparser_parse, datetime_now. simpl.
  destruct (network w (rss_url self) (fetch_calls w)) as [feed|]; [|done].
  fold (fetched w). fold (tick (fetched w)).
  by destruct (for_each (entries feed) parse_and_store _) as [[[]|e] st].
Qed.

Lemma update_needed_eq self w :
  update_needed self (self, w) = (Ok (due self w), (self, check_world self w)).
Proof.
  unfold update_needed, due, check_world.
  by destruct (_last_update_datetime self).
Qed.

Lemma get_latest_eq self w :
  get_latest (self, w) =
    if due self w then
      match _update (self, check_world self w) with
      | (Ok _, (self', w')) => (Ok (_latest self'), (self', w'))
      | (Raise e, st) => (Raise e, st)
      end
    else (Ok (_latest self), (self, check_world self w)).
Proof.
  unfold get_latest. unfold mbind at 1, M_bind at 1, bind at 1, the_self at 1.
  rewrite (bind_Ok _ _ _ _ _ (update_needed_eq self w)).
  destruct (due self w); [|done].
  unfold mbind, M_bind, bind.
  by destruct (_update (self, check_world self w)) as [[b|e] [self' w']].
Qed.

Lemma due_spec self w :
  due self w = true ↔
  _last_update_datetime self = None ∨
  ∃ last, _last_update_datetime self = Some last ∧
          last + min_update_freq_secs self * 1000000 < clock w (now_calls w).
Proof.
  unfold due, timedelta_seconds. destruct (_last_update_datetime self) as [last|].
  - rewrite Z.ltb_lt. split.
    + intros Hlt. right. by exists last.
    + intros [|(last' & [= <-] & Hlt)]; done.
  - split; [by left|done].
Qed.

Lemma due_spec' self w : due self w = false → _last_update_datetime self ≠ None.
Proof. unfold due. by destruct (_last_update_datetime self). Qed.

(** One call of [get_latest], whatever it returns or raises: when it is
    due, one fetch is made and the reading of the clock that follows it is
    recorded, whether or not a feed came back; otherwise nothing is
    fetched and the record stays. *)
Lemma get_latest_effect self w :
  let st' := exec get_latest (self, w) in
  same_setup (self, w) st' ∧
  if due self w then
    fetch_calls st'.2 = S (fetch_calls w) ∧
    _last_update_datetime st'.1 =
      Some (clock w (now_calls (check_world self w)))
  else
    fetch_calls st'.2 = fetch_calls w ∧
    _last_update_datetime st'.1 = _last_update_datetime self.
Proof.
  unfold exec. rewrite get_latest_eq.
  assert (Hcw : clock (check_world self w) = clock w ∧
                network (check_world self w) = network w ∧
                fetch_calls (check_world self w) = fetch_calls w)
    by (unfold check_world; by destruct (_last_update_datetime self)).
  destruct Hcw as (Hc & Hn & Hf).
  destruct (due self w); [|by unfold same_setup].
  rewrite _update_eq. cbn zeta.
  destruct (network _ _ _) as [feed|].
  - pose proof (store_loop (entries feed)
      (reset_at self (clock (check_world self w) (now_calls (check_world self w))))
      (tick (fetched (check_world self w)))) as Hloop.
    cbn zeta in Hloop.
    destruct (for_each (entries feed) parse_and_store _) as [[[]|e] [self' w']];
      unfold same_setup in *; simpl in *;
      destruct Hloop as ((?&?&?&?&?) & ? & ? & _);
      split_and!; congruence.
  - unfold same_setup; simpl. split_and!; congruence.
Qed.

Lemma polls_invariant n self w :
  _last_update_datetime self = None →
  let st := polls n (self, w) in
  same_setup (self, w) st ∧
  (fetch_calls w ≤ fetch_calls st.2)%nat ∧
  (_last_update_datetime st.1 = None ↔ fetch_calls st.2 = fetch_calls w).
Proof.
  intros Hnone. induction n as [|n IH]; simpl.
  - by unfold same_setup.
  - destruct (polls n (self, w)) as [self1 w1].
    pose proof (get_latest_effect self1 w1) as Heff.
    cbn zeta in *. unfold same_setup in *. simpl in *.
    destruct IH as ((?&?&?&?&?) & Hle & Hiff).
    destruct Heff as ((?&?&?&?&?) & Heff).
    split_and!; try congruence.
    + destruct (due self1 w1); destruct Heff as [Hf _]; lia.
    + destruct (due self1 w1) eqn:Hdue; destruct Heff as [Hf Hl].
      * rewrite Hl, Hf. split; [done|lia].
      * rewrite Hl, Hf. apply due_spec' in Hdue. done.
Qed.
End RefreshFacts.

Section RefreshClaims.
Context `{Externals}.
Implicit Types (self : BaseFeeder) (w : World) (item : Item) (c : FeederClass).

(** X21.  When the fetch brings a feed and no entry makes the parser
    raise, [_update] returns [True] and leaves in the cache the releases
    the entries of that feed parse to, in feed order, whatever the cache
    held before. *)
Theorem successful_refresh_replaces_cache self w feed :
  network w (rss_url self) (fetch_calls w) = Some feed →
  parses_ok (cls self) (entries feed) (tick (fetched w)) →
  ∃ self' w',
    _update (self, w) = (Ok true, (self', w')) ∧
    _latest self' =
      parsed_releases (cls self) (entries feed) (tick (fetched w)).
Proof.
  intros Hfeed Hok. rewrite _update_eq, Hfeed. cbn zeta.
  pose proof (store_loop (entries feed)
    (reset_at self (clock w (now_calls w))) (tick (fetched w))) as Hloop.
  cbn zeta in Hloop. destruct Hloop as (_ & _ & _ & Hloop).
  destruct (Hloop Hok) as [Hr Hl].
  destruct (for_each (entries feed) parse_and_store _) as [r [self' w']].
  simpl in *. subst r. by exists self', w'.
Qed.

(** C1, as the code has it.  When [get_latest] is due and the fetch
    brings no feed, [get_latest] raises nothing and returns the empty
    list, and the cache of the feeder is empty afterwards. *)
Theorem failed_refresh_empties_cache self w :
  due self w = true →
  network w (rss_url self) (fetch_calls w) = None →
  ∃ self' w',
    get_latest (self, w) = (Ok [], (self', w')) ∧ _latest self' = [].
Proof.
  intros Hdue Hnet. rewrite get_latest_eq, Hdue, _update_eq.
  assert (Hcw : network (check_world self w) = network w ∧
                fetch_calls (check_world self w) = fetch_calls w)
    by (unfold check_world; by destruct (_last_update_datetime self)).
  destruct Hcw as [-> ->]. rewrite Hnet. cbn zeta.
  by eexists _, _.
Qed.

(** C5, as the code has it.  A feeder starts with an interval of 900
    seconds.  After any number of calls of [get_latest], the next call
    fetches exactly when no fetch was attempted so far or the clock reads
    more than the interval past the last attempt; a call that fetches
    records the reading of the clock taken right after the fetch, whether
    or not a feed came back, and a call that does not fetch leaves the
    record alone. *)
Theorem refresh_rule c secs w n :
  let st := polls n (set_min_update_freq_secs (__init__ c) secs, w) in
  let st' := exec get_latest st in
  min_update_freq_secs (__init__ c) = 900 ∧
  min_update_freq_secs st.1 = secs ∧
  (_last_update_datetime st.1 = None ↔ fetch_calls st.2 = fetch_calls w) ∧
  (fetch_calls st'.2 = S (fetch_calls st.2) ↔
     _last_update_datetime st.1 = None ∨
     ∃ last, _last_update_datetime st.1 = Some last ∧
             last + secs * 1000000 < clock w (now_calls st.2)) ∧
  (fetch_calls st'.2 = S (fetch_calls st.2) ∧
     _last_update_datetime st'.1 =
       Some (clock w (now_calls (check_world st.1 st.2))) ∨
   fetch_calls st'.2 = fetch_calls st.2 ∧
     _last_update_datetime st'.1 = _last_update_datetime st.1).
Proof.
  intros st st'.
  assert (Hnone : _last_update_datetime
                    (set_min_update_freq_secs (__init__ c) secs) = None)
    by (by destruct c).
  pose proof (polls_invariant n _ w Hnone) as Hinv. cbn zeta in Hinv.
  fold st in Hinv. destruct Hinv as ((_ & Hsecs & _ & Hclock & _) & _ & Hiff).
  assert (Hs : min_update_freq_secs st.1 = secs)
    by (rewrite Hsecs; by destruct c).
  pose proof (get_latest_effect st.1 st.2) as Heff. cbn zeta in Heff.
  replace (st.1, st.2) with st in Heff by (by destruct st).
  fold st' in Heff. destruct Heff as [_ Heff].
  simpl in Hclock. rewrite <- Hclock, <- Hs.
  split_and!; [by destruct c|done|done| |].
  - rewrite <- due_spec. destruct (due st.1 st.2); destruct Heff as [Hf _].
    + done.
    + split; [lia|done].
  - destruct (due st.1 st.2); [left|right]; done.
Qed.
End RefreshClaims.

(** ** The definitions on the sample values *)

(** A higher known quality wins over the source listed first. *)
Example run_prefers_quality :
  @run sample_externals [A720; B1080] [] = (Ok tt, [B1080]).
Proof. vm_compute. reflexivity. Qed.

(** At equal quality the source listed first wins. *)
Example run_breaks_ties_by_order :
  @run sample_externals [A720; B720] [] = (Ok tt, [A720]).
Proof. vm_compute. reflexivity. Qed.

(** An entry with a title and nothing to download gives no release. *)
Example title_only_entry :
  (@_parse_rss_item sample_externals TorrentFeederCls
     (set_title empty_item "Show.Name.S01E02.Bad") sample_world).1 = Ok None.
Proof. vm_compute. reflexivity. Qed.

Lemma run_selects_max_known_quality_witness :
  A720 ∈ [A720; B1080] ∧
  @is_wanted sample_externals A720 = true ∧
  (42, 1, 5) ∈ episode_refs A720 ∧
  quality A720 ≠ @UNKNOWN_QUALITY sample_externals ∧
  ∃ dlables winner sent i,
    @wanted_dict_of sample_externals [A720; B1080] !! (42, 1, 5) = Some dlables ∧
    @use_dlable sample_externals dlables = Ok winner ∧
    @run sample_externals [A720; B1080] [] = (Ok tt, sent) ∧
    map_to_list (@wanted_dict_of sample_externals [A720; B1080]) !! i
      = Some ((42, 1, 5), dlables) ∧
    sent !! i = Some winner ∧
    winner ∈ [A720; B1080] ∧ @is_wanted sample_externals winner = true ∧
    (42, 1, 5) ∈ episode_refs winner ∧
    dlables !! quality winner = Some winner ∧
    quality winner ≠ @UNKNOWN_QUALITY sample_externals ∧
    ∀ w', w' ∈ [A720; B1080] → @is_wanted sample_externals w' = true →
          (42, 1, 5) ∈ episode_refs w' →
          quality w' ≠ @UNKNOWN_QUALITY sample_externals →
          quality w' ≤ quality winner.
Proof.
  assert (H1 : A720 ∈ [A720; B1080]) by left.
  assert (H2 : @is_wanted sample_externals A720 = true) by reflexivity.
  assert (H3 : (42, 1, 5) ∈ episode_refs A720) by (vm_compute; left).
  assert (H4 : quality A720 ≠ @UNKNOWN_QUALITY sample_externals)
    by (vm_compute; discriminate).
  split_and!; [done..|].
  exact (@run_selects_max_known_quality sample_externals
           [A720; B1080] (42, 1, 5) A720 H1 H2 H3 H4).
Defined.


Lemma fallback_lookup_succeeds_witness :
  (∃ r, ({[ 32768 := U1 ]} : gmap Z Torrent) !! @UNKNOWN_QUALITY sample_externals
          = Some r ∧
        @use_dlable sample_externals {[ 32768 := U1 ]} = Ok r) ∧
  (∃ sent, @run sample_externals [U1] [] = (Ok tt, sent)).
Proof.
  apply (@fallback_lookup_succeeds sample_externals [U1] (42, 1, 5)).
  - vm_compute. reflexivity.
  - vm_compute. reflexivity.
Defined.

(** The enclosure test never answers [False]: an enclosure it does not
    accept on its type or as a magnet makes it raise. *)
Lemma enclosure_matches_raises (enc : Link) (ty h : string) (urls : list string) :
  type enc = Has ty → ty ≠ "application/x-bittorrent" →
  href enc = Has h → startswith h "magnet:" = false →
  enclosure_matches enc urls = (Raise AttributeError, urls).
Proof.
  intros Hty Hne Hh Hm. unfold enclosure_matches.
  rewrite Hty, Hh. unfold mbind, M_bind, bind, getattr, ret.
  apply String.eqb_neq in Hne. by rewrite Hne, Hm.
Qed.

(** C4.  An enclosure that is neither of the bittorrent type nor a magnet
    makes the enclosure loop stop with [AttributeError]: the address ending
    in [.torrent] is not collected and the entry gives no release, and an
    enclosure of the bittorrent type that comes after such an enclosure is
    not collected either. *)
Theorem enclosure_loop_stops_early :
  endswith "http://example.com/show.s01e05.torrent" ".torrent" = true ∧
  enclosure_matches
    {| type := Has "text/html";
       href := Has "http://example.com/show.s01e05.torrent" |} []
    = (Raise AttributeError, []) ∧
  collected_urls suffix_item = [] ∧
  (@_parse_rss_item sample_externals TorrentFeederCls suffix_item sample_world).1
    = Ok None ∧
  collected_urls mixed_item = [] ∧
  collected_urls
    (set_enclosures mixed_item
       [ {| type := Has "application/x-bittorrent";
            href := Has "http://example.com/download/1234" |} ])
    = ["http://example.com/download/1234"].
Proof. vm_compute. repeat split. Qed.

Lemma no_urls_no_release_witness :
  (@TorrentFeeder_parse_rss_item sample_externals TorrentFeederCls
     suffix_item sample_world).1 = Ok None ∧
  (∀ t, (@_parse_rss_item sample_externals TorrentFeederCls
           suffix_item sample_world).1 ≠ Ok (Some t)) ∧
  (∀ t, (@_parse_rss_item sample_externals TorrentFeederCls
           magnet_item sample_world).1 = Ok (Some t) →
        urls t = remove_duplicates (collected_urls magnet_item) ∧ urls t ≠ []).
Proof.
  pose proof (proj1 (@no_urls_no_release sample_externals TorrentFeederCls
                       suffix_item sample_world)) as Hnone.
  pose proof (proj2 (@no_urls_no_release sample_externals TorrentFeederCls
                       magnet_item sample_world)) as Hsome.
  assert (Hempty : remove_duplicates (collected_urls suffix_item) = [])
    by (vm_compute; reflexivity).
  destruct (Hnone Hempty) as [Hn1 Hn2]. split_and!; done.
Defined.

Lemma showrss_marker_quality_witness :
  ∃ r,
    (@ShowRSSFeeder_parse_rss_item sample_externals marker_item sample_world).1
      = Ok (Some r) ∧
    name r = Some "Show Name 1x05" ∧
    quality r = @HD720P_COMP sample_externals.
Proof.
  destruct (@showrss_marker_quality sample_externals marker_item
              "Show Name 1x05" sample_world) as [_ Hq].
  - reflexivity.
  - vm_compute. discriminate.
  - revert Hq. vm_compute. intros (r & Hr & _ & Hn & Hq & _).
    exists r. split_and!.
    + exact Hr.
    + exact Hn.
    + apply Hq. reflexivity.
Defined.

Lemma absent_date_is_now_witness :
  read_pubDate suffix_item sample_world =
    (Ok (DateTime (clock sample_world (now_calls sample_world))),
     tick sample_world) ∧
  ∃ r,
    (@_parse_rss_item sample_externals TorrentFeederCls
       (set_published_parsed magnet_item (Missing KeyError)) sample_world).1
      = Ok (Some r) ∧
    timestamp r = DateTime (clock sample_world (now_calls sample_world)).
Proof.
  split.
  - apply (@absent_date_is_now sample_externals TorrentFeederCls suffix_item
             AttributeError None sample_world). reflexivity.
  - destruct (@absent_date_is_now sample_externals TorrentFeederCls
                (set_published_parsed magnet_item (Missing KeyError))
                KeyError (Some 7) sample_world eq_refl) as [_ Hd].
    revert Hd. vm_compute. intros (r & Hr & Ht & _).
    exists r. split.
    + exact Hr.
    + exact Ht.
Defined.

(** C9.  An entry whose date text could not be parsed holds [None] as
    [published_parsed]: reading it raises nothing, so the handler that
    takes the current time does not run.  The release is built all the
    same, the clock is not read, and the timestamp of the release is
    [None] and not the current time. *)
Theorem malformed_date_is_passed_on :
  published_parsed malformed_date_item = Has None ∧
  @_parse_rss_item sample_externals TorrentFeederCls
     malformed_date_item sample_world
    = (Ok (Some malformed_date_release), sample_world) ∧
  timestamp malformed_date_release = NoneTime ∧
  timestamp malformed_date_release
    ≠ DateTime (clock sample_world (now_calls sample_world)).
Proof. vm_compute. repeat split. discriminate. Qed.

(** C10.  The feed of [untitled_world] has three entries, the second one
    without title.  The fetch brings the feed, the first and the third
    entry parse to a release, and yet the refresh of a ShowRSS feeder
    raises [AttributeError] at the second entry: [get_latest] raises too,
    and the cache is left with the release of the first entry only. *)
Theorem untitled_entry_breaks_refresh :
  let start := (__init__ ShowRSSFeederCls, untitled_world) in
  let out := @_update sample_externals start in
  network untitled_world (rss_url start.1) (fetch_calls untitled_world)
    = Some untitled_feed ∧
  entries untitled_feed = [magnet_item; empty_item; magnet_item] ∧
  (@_parse_rss_item sample_externals ShowRSSFeederCls magnet_item out.2.2).1
    = Ok (Some showrss_release) ∧
  out.1 = Raise AttributeError ∧
  (@get_latest sample_externals start).1 = Raise AttributeError ∧
  _latest out.2.1 = [showrss_release] ∧
  _latest out.2.1 ≠ [showrss_release; showrss_release].
Proof. vm_compute. repeat split. discriminate. Qed.

Lemma successful_refresh_replaces_cache_witness :
  ∃ self' w',
    @_update sample_externals (__init__ TorrentFeederCls, sample_world)
      = (Ok true, (self', w')) ∧
    _latest self' =
      @parsed_releases sample_externals TorrentFeederCls (entries sample_feed)
        (tick (fetched sample_world)).
Proof.
  apply (@successful_refresh_replaces_cache sample_externals
           (__init__ TorrentFeederCls) sample_world sample_feed).
  - reflexivity.
  - vm_compute. exact I.
Defined.

(** C1 on the sample world: the first call fills the cache, the second
    call is due, its fetch brings nothing, and it returns an empty list
    where the cache held a release. *)
Lemma stale_cache_is_dropped :
  _latest after_first_poll.1 ≠ [] ∧
  due after_first_poll.1 after_first_poll.2 = true ∧
  network after_first_poll.2 (rss_url after_first_poll.1)
    (fetch_calls after_first_poll.2) = None ∧
  (@get_latest sample_externals after_first_poll).1 = Ok [] ∧
  (@get_latest sample_externals after_first_poll).1
    ≠ Ok (_latest after_first_poll.1) ∧
  _latest (@get_latest sample_externals after_first_poll).2.1
    ≠ _latest after_first_poll.1.
Proof. vm_compute. repeat split; discriminate. Qed.

Lemma failed_refresh_empties_cache_witness :
  ∃ self' w',
    @get_latest sample_externals (after_first_poll.1, after_first_poll.2)
      = (Ok [], (self', w')) ∧ _latest self' = [].
Proof.
  apply (@failed_refresh_empties_cache sample_externals).
  - vm_compute. reflexivity.
  - vm_compute. reflexivity.
Defined.

(** C5 on the sample world: the first fetch succeeds at 0 s, the second,
    at 1000 s, fails; at 1500 s, more than 900 s after the last successful
    fetch, the third call fetches nothing. *)
Lemma failed_fetch_restarts_interval :
  let start := (@__init__ TorrentFeederCls, sample_world) in
  let s1 := @polls sample_externals 1 start in
  let s2 := @polls sample_externals 2 start in
  let s3 := @polls sample_externals 3 start in
  network sample_world (rss_url start.1) 0 = Some sample_feed ∧
  fetch_calls s1.2 = 1%nat ∧
  _last_update_datetime s1.1 = Some 0 ∧
  network sample_world (rss_url start.1) 1 = None ∧
  fetch_calls s2.2 = 2%nat ∧
  clock sample_world (now_calls s2.2) = 1500 * 1000000 ∧
  0 + timedelta_seconds (min_update_freq_secs s2.1)
    < clock sample_world (now_calls s2.2) ∧
  fetch_calls s3.2 = fetch_calls s2.2.
Proof. vm_compute. repeat split. Qed.

(** * Further facts about [run] *)

Section RunFacts.
Context `{Externals}.
Implicit Types (key : EpisodeRef) (q : Z) (w r : Torrent).

(** An episode is a key of [wanted_dict] exactly when a wanted
    downloadable of the input refers to it. *)
Lemma wanted_dict_of_key (latest : list Torrent) key :
  is_Some (wanted_dict_of latest !! key) ↔
  ∃ w, w ∈ latest ∧ is_wanted w = true ∧ key ∈ episode_refs w.
Proof.
  split.
  - intros [dl Hdl].
    destruct (build_wanted_dict_inhabited _ key dl Hdl) as [q [r Hr]].
    destruct (wanted_dict_of_slot latest key dl q r Hdl Hr)
      as (n & Hn & [[Hk _] Hw] & _).
    exists r. split_and!; [by eapply list_elem_of_lookup_2|done..].
  - intros (w & Hin & Hw & Hk).
    destruct (wanted_dict_of_offer latest key (quality w) w)
      as (dl & r & Hdl & _); [done|by split|]. by eexists.
Qed.

Lemma dom_wanted_dict_of (latest : list Torrent) :
  dom (wanted_dict_of latest) = wanted_episodes latest.
Proof.
  apply set_eq. intros key. rewrite elem_of_dom, wanted_dict_of_key.
  unfold wanted_episodes. rewrite elem_of_list_to_set, list_elem_of_bind.
  split.
  - intros (w & Hin & Hw & Hk). exists w. split; [done|].
    by apply list_elem_of_filter.
  - intros (w & Hk & [Hw Hin]%list_elem_of_filter). by exists w.
Qed.

(** What [use_dlable] picks for an episode of [wanted_dict] is a wanted
    downloadable of the input that refers to the episode. *)
Lemma use_dlable_wanted (latest : list Torrent) key dl r :
  wanted_dict_of latest !! key = Some dl → use_dlable dl = Ok r →
  r ∈ latest ∧ is_wanted r = true ∧ key ∈ episode_refs r.
Proof.
  intros Hdl Huse. apply use_dlable_lookup in Huse as [q Hq].
  destruct (wanted_dict_of_slot latest key dl q r Hdl Hq)
    as (n & Hn & [[Hk _] Hw] & _).
  split_and!; [by eapply list_elem_of_lookup_2|done..].
Qed.

(** X1.  [run] ends without an exception, and everything it hands to the
    downloaders is a wanted downloadable of its input that refers to at
    least one episode. *)
Theorem run_sends_only_wanted (latest : list Torrent) :
  ∃ sent,
    run latest [] = (Ok tt, sent) ∧
    ∀ r, r ∈ sent →
         r ∈ latest ∧ is_wanted r = true ∧ ∃ key, key ∈ episode_refs r.
Proof.
  destruct (run_sent latest) as (sent & Hrun & Hall).
  exists sent. split; [done|]. intros r Hr.
  apply list_elem_of_lookup in Hr as [i Hi].
  destruct (Forall2_lookup_r _ _ _ i _ Hall Hi) as ([key dl] & Hkd & Huse).
  apply list_elem_of_lookup_2, elem_of_map_to_list in Hkd.
  destruct (use_dlable_wanted latest key dl r Hkd Huse) as (?&?&?).
  split_and!; [done..|]. by exists key.
Qed.

(** X2.  [run] hands over exactly one downloadable per episode that some
    wanted downloadable of the input refers to: as many as there are
    distinct such episodes. *)
Theorem run_one_download_per_episode (latest : list Torrent) :
  ∃ sent,
    run latest [] = (Ok tt, sent) ∧
    length sent = size (wanted_episodes latest).
Proof.
  destruct (run_sent latest) as (sent & Hrun & Hall).
  exists sent. split; [done|].
  rewrite <- (Forall2_length _ _ _ Hall), length_map_to_list.
  by rewrite <- dom_wanted_dict_of, size_dom.
Qed.

(** X3.  When every wanted downloadable that refers to an episode has
    [UNKNOWN_QUALITY], [run] hands over, for that episode, the first
    wanted downloadable of the input that refers to it. *)
Theorem run_unknown_quality_takes_first (latest : list Torrent) key w :
  w ∈ latest → is_wanted w = true → key ∈ episode_refs w →
  (∀ w', w' ∈ latest → is_wanted w' = true → key ∈ episode_refs w' →
         quality w' = UNKNOWN_QUALITY) →
  ∃ dlables winner sent i n,
    wanted_dict_of latest !! key = Some dlables ∧
    use_dlable dlables = Ok winner ∧
    run latest [] = (Ok tt, sent) ∧
    map_to_list (wanted_dict_of latest) !! i = Some (key, dlables) ∧
    sent !! i = Some winner ∧
    latest !! n = Some winner ∧
    is_wanted winner = true ∧ key ∈ episode_refs winner ∧
    ∀ m x, (m < n)%nat → latest !! m = Some x →
           ¬ (is_wanted x = true ∧ key ∈ episode_refs x).
Proof.
  intros Hin Hw Hk Hall.
  destruct (wanted_dict_of_offer latest key (quality w) w)
    as (dl & r0 & Hdl & Hr0); [done|by split|].
  assert (Hknown : known_qualities dl = []).
  { destruct (known_qualities dl) as [|q qs] eqn:Hq; [done|].
    assert (Hqin : q ∈ known_qualities dl) by (rewrite Hq; left).
    apply elem_of_known_qualities in Hqin as [Hne [r Hr]].
    destruct (wanted_dict_of_slot latest key dl q r Hdl Hr)
      as (n & Hn & [[Hrk Hrq] Hrw] & _).
    destruct Hne. rewrite <- Hrq. apply Hall; [|done..].
    by eapply list_elem_of_lookup_2. }
  destruct (use_dlable_unknown dl) as (r & Huse & Hr); [|done|].
  { by eapply build_wanted_dict_inhabited. }
  destruct (wanted_dict_of_slot latest key dl _ r Hdl Hr)
    as (n & Hn & [[Hrk Hrq] Hrw] & Hmin).
  destruct (run_sent latest) as (sent & Hrun & Hf2).
  assert (Hl : (key, dl) ∈ map_to_list (wanted_dict_of latest))
    by (by apply elem_of_map_to_list).
  apply list_elem_of_lookup in Hl as [i Hi].
  destruct (Forall2_lookup_l _ _ _ i _ Hf2 Hi) as (r' & Hr' & Huse').
  simpl in Huse'. rewrite Huse in Huse'. injection Huse' as <-.
  exists dl, r, sent, i, n. split_and!; try done.
  intros m x Hm Hx [Hxw Hxk]. apply (Hmin m x Hm Hx).
  split; [split; [done|]|done]. apply Hall; [|done..].
  by eapply list_elem_of_lookup_2.
Qed.

(** X4.  When no wanted downloadable of the input refers to an episode,
    [run] hands nothing to the downloaders. *)
Theorem run_without_episodes (latest sent0 : list Torrent) :
  (∀ w, w ∈ latest → is_wanted w = true → episode_refs w = []) →
  run latest sent0 = (Ok tt, sent0).
Proof.
  intros Hnone. unfold run.
  assert (Hempty : map_to_list
            (build_wanted_dict (filter (λ s, is_wanted s = true) latest)) = []).
  { apply length_zero_iff_nil. rewrite length_map_to_list.
    fold (wanted_dict_of latest).
    rewrite <- size_dom, dom_wanted_dict_of. apply size_empty_iff.
    apply set_equiv. intros key. unfold wanted_episodes.
    rewrite elem_of_list_to_set, list_elem_of_bind. split; [|set_solver].
    intros (w & Hk & [Hw Hin]%list_elem_of_filter).
    rewrite (Hnone w Hin Hw) in Hk. by apply elem_of_nil in Hk. }
  by rewrite Hempty.
Qed.

(** X5.  A downloadable that is picked for two different episodes is
    handed to the downloaders twice, once for each. *)
Theorem run_downloads_pack_per_episode (latest : list Torrent)
    key1 key2 d1 d2 w :
  key1 ≠ key2 →
  wanted_dict_of latest !! key1 = Some d1 → use_dlable d1 = Ok w →
  wanted_dict_of latest !! key2 = Some d2 → use_dlable d2 = Ok w →
  ∃ sent i j,
    run latest [] = (Ok tt, sent) ∧ i ≠ j ∧
    map_to_list (wanted_dict_of latest) !! i = Some (key1, d1) ∧
    map_to_list (wanted_dict_of latest) !! j = Some (key2, d2) ∧
    sent !! i = Some w ∧ sent !! j = Some w.
Proof.
  intros Hne Hd1 Hu1 Hd2 Hu2.
  destruct (run_sent latest) as (sent & Hrun & Hall).
  assert (H1 : (key1, d1) ∈ map_to_list (wanted_dict_of latest))
    by (by apply elem_of_map_to_list).
  assert (H2 : (key2, d2) ∈ map_to_list (wanted_dict_of latest))
    by (by apply elem_of_map_to_list).
  apply list_elem_of_lookup in H1 as [i Hi].
  apply list_elem_of_lookup in H2 as [j Hj].
  destruct (Forall2_lookup_l _ _ _ i _ Hall Hi) as (r1 & Hr1 & Huse1).
  destruct (Forall2_lookup_l _ _ _ j _ Hall Hj) as (r2 & Hr2 & Huse2).
  simpl in *. rewrite Hu1 in Huse1. rewrite Hu2 in Huse2.
  injection Huse1 as <-. injection Huse2 as <-.
  exists sent, i, j. split_and!; try done.
  intros ->. rewrite Hi in Hj. by injection Hj.
Qed.
End RunFacts.

(** * Further facts about the collection of links *)

Lemma collect_magneturi_exec (item : Item) (urls : list string) :
  exec (collect_magneturi item) urls = urls ++ magneturi_urls item.
Proof.
  unfold exec, collect_magneturi, try_except, magneturi_urls.
  destruct (magneturi item) as [m|e]; simpl.
  - unfold mbind, M_bind, bind, ret. simpl.
    destruct (truthy m); simpl; [done|by rewrite app_nil_r].
  - destruct e; simpl; by rewrite app_nil_r.
Qed.

(** One enclosure: its address is appended, or the test or the reading of
    the address raises and nothing is appended. *)
Lemma enclosure_step (enc : Link) (urls : list string) :
  (enc_matches ← enclosure_matches enc;
   if (enc_matches : bool) then h ← getattr (href enc); append h else ret tt) urls =
    match enclosure_url enc with
    | Some h => (Ok tt, urls ++ [h])
    | None =>
        (Raise match type enc with
               | Has ty =>
                   if String.eqb ty "application/x-bittorrent" then
                     match href enc with Has _ => AttributeError | Missing e => e end
                   else match href enc with
                        | Has _ => AttributeError
                        | Missing e => e
                        end
               | Missing e => e
               end, urls)
    end.
Proof.
  unfold enclosure_url, enclosure_matches, endwidth, append, modify,
    mbind, M_bind, bind, getattr, ret, raise.
  destruct (type enc) as [ty|e]; [|done].
  destruct (String.eqb ty "application/x-bittorrent"); simpl.
  - by destruct (href enc).
  - destruct (href enc) as [h|e]; [|done]. by destruct (startswith h "magnet:").
Qed.

Lemma collect_enclosures_exec (item : Item) (urls : list string) :
  exec (collect_enclosures item) urls = urls ++ enclosures_urls item.
Proof.
  unfold exec, collect_enclosures, try_except, enclosures_urls.
  destruct (enclosures item) as [encs|e]; simpl;
    [|destruct e; simpl; by rewrite app_nil_r].
  unfold mbind at 1, M_bind at 1, bind at 1, ret at 1.
  assert (Hloop : ∀ us,
    ∃ r, for_each encs (λ enc : Link,
           c ← enclosure_matches enc;
           if (c : bool) then h ← getattr (href enc); append h else ret tt) us
         = (r, us ++ enclosure_urls encs)).
  { induction encs as [|enc encs IH]; intros us; simpl.
    - exists (Ok tt). by rewrite app_nil_r.
    - unfold mbind at 1, M_bind at 1, bind at 1. rewrite enclosure_step.
      destruct (enclosure_url enc) as [h|].
      + destruct (IH (us ++ [h])) as [r Hr]. exists r.
        rewrite Hr. by rewrite <- app_assoc.
      + eexists. by rewrite app_nil_r. }
  destruct (Hloop urls) as [r ->].
  destruct r as [[]|e]; [done|]. by destruct e.
Qed.

Lemma link_step (link : Link) (urls : list string) :
  (c ← link_matches link;
   if (c : bool) then h ← getattr (href link); append h else ret tt) urls =
    match href link with
    | Has h => (Ok tt, if torrent_link h then urls ++ [h] else urls)
    | Missing e => (Raise e, urls)
    end.
Proof.
  unfold link_matches, torrent_link, append, modify,
    mbind, M_bind, bind, getattr, ret, raise.
  destruct (href link) as [h|e]; [|done].
  destruct (startswith h "magnet:"); simpl; [done|].
  by destruct (endswith h ".torrent").
Qed.

Lemma collect_links_exec (item : Item) (urls : list string) :
  exec (collect_links item) urls = urls ++ links_urls item.
Proof.
  unfold exec, collect_links, try_except, links_urls.
  destruct (links item) as [lks|e]; simpl;
    [|destruct e; simpl; by rewrite app_nil_r].
  unfold mbind at 1, M_bind at 1, bind at 1, ret at 1.
  assert (Hloop : ∀ us,
    ∃ r, for_each lks (λ link : Link,
           c ← link_matches link;
           if (c : bool) then h ← getattr (href link); append h else ret tt) us
         = (r, us ++ link_urls lks)).
  { induction lks as [|link lks IH]; intros us; simpl.
    - exists (Ok tt). by rewrite app_nil_r.
    - unfold mbind at 1, M_bind at 1, bind at 1. rewrite link_step.
      destruct (href link) as [h|e].
      + destruct (torrent_link h).
        * destruct (IH (us ++ [h])) as [r Hr]. exists r.
          rewrite Hr. by rewrite <- app_assoc.
        * apply IH.
      + eexists. by rewrite app_nil_r. }
  destruct (Hloop urls) as [r ->].
  destruct r as [[]|e]; [done|]. by destruct e.
Qed.

Lemma filter_magnets_nil (urls : list string) :
  (length (filter (λ k, startswith k "magnet:" = true) urls) =? 0)%nat
    = negb (has_magnet urls).
Proof.
  unfold has_magnet. induction urls as [|u urls IH]; [done|].
  rewrite filter_cons. simpl.
  destruct (decide (startswith u "magnet:" = true)) as [Hu|Hu].
  - by rewrite Hu.
  - apply not_true_is_false in Hu. by rewrite Hu.
Qed.

Lemma collect_infohash_exec (item : Item) (urls : list string) :
  exec (collect_infohash item) urls = urls ++ infohash_urls item urls.
Proof.
  unfold exec, collect_infohash, try_except, infohash_urls.
  destruct (infohash item) as [h|e]; simpl;
    [|destruct e; simpl; by rewrite app_nil_r].
  unfold mbind, M_bind, bind, ret, get, append, modify. simpl.
  destruct (truthy h); simpl; [|by rewrite app_nil_r].
  rewrite filter_magnets_nil.
  destruct (negb (has_magnet urls)); simpl; [done|by rewrite app_nil_r].
Qed.

(** X6.  The links of an entry are collected in this order: the magnet
    field when it is not empty, the enclosures up to the first one the loop
    stops at, the magnet and [.torrent] links up to the first link without
    an address, and a magnet made from the info hash when the hash is not
    empty and no magnet was collected before. *)
Theorem collected_urls_parts (item : Item) :
  collected_urls item =
    let before :=
      magneturi_urls item ++ enclosures_urls item ++ links_urls item in
    before ++ infohash_urls item before.
Proof.
  unfold collected_urls.
  rewrite collect_infohash_exec, collect_links_exec, collect_enclosures_exec,
    collect_magneturi_exec.
  cbn zeta. by rewrite !app_nil_l, <- !app_assoc.
Qed.

Lemma enclosure_urls_prefix (l1 rest : list Link) :
  Forall (λ enc, is_Some (enclosure_url enc)) l1 →
  rest = [] ∨ (∃ bad l2, rest = bad :: l2 ∧ enclosure_url bad = None) →
  enclosure_urls (l1 ++ rest) = omap enclosure_url l1.
Proof.
  intros Hl1 Hrest. induction Hl1 as [|enc l1 [h Hh] _ IH]; simpl.
  - destruct Hrest as [->|(bad & l2 & -> & Hbad)]; [done|]. simpl. by rewrite Hbad.
  - rewrite Hh. simpl. by rewrite IH.
Qed.

(** X7.  The enclosure loop collects the addresses of the enclosures that
    are of the bittorrent type or magnets as long as it meets no other
    one; at the first enclosure of another kind, or without type or
    address, it stops, and no enclosure after that one is collected. *)
Theorem enclosures_collected_until_stop (item : Item)
    (l1 rest : list Link) (urls : list string) :
  enclosures item = Has (l1 ++ rest) →
  Forall (λ enc, is_Some (enclosure_url enc)) l1 →
  rest = [] ∨ (∃ bad l2, rest = bad :: l2 ∧ enclosure_url bad = None) →
  exec (collect_enclosures item) urls = urls ++ omap enclosure_url l1.
Proof.
  intros Hencs Hl1 Hrest. rewrite collect_enclosures_exec.
  unfold enclosures_urls. rewrite Hencs. by rewrite enclosure_urls_prefix.
Qed.

Lemma link_urls_prefix (l1 rest : list Link) :
  Forall (λ link, is_Some (attr_or_None (href link))) l1 →
  rest = [] ∨ (∃ bad l2 e, rest = bad :: l2 ∧ href bad = Missing e) →
  link_urls (l1 ++ rest) =
    filter (λ h, torrent_link h = true) (omap (λ link, attr_or_None (href link)) l1).
Proof.
  intros Hl1 Hrest. induction Hl1 as [|link l1 [h Hh] _ IH]; simpl.
  - destruct Hrest as [->|(bad & l2 & e & -> & Hbad)]; [done|]. simpl. by rewrite Hbad.
  - destruct (href link) as [h'|e]; simpl in *; [|done]. injection Hh as ->.
    rewrite filter_cons. rewrite IH.
    destruct (decide (torrent_link h = true)) as [Ht|Ht].
    + by rewrite Ht.
    + apply not_true_is_false in Ht. by rewrite Ht.
Qed.

(** X8.  The link loop collects, in order, the addresses that start with
    [magnet:] or end with [.torrent] and skips the other ones; a link
    without address stops it, and no link after that one is collected. *)
Theorem links_collected_until_stop (item : Item)
    (l1 rest : list Link) (urls : list string) :
  links item = Has (l1 ++ rest) →
  Forall (λ link, is_Some (attr_or_None (href link))) l1 →
  rest = [] ∨ (∃ bad l2 e, rest = bad :: l2 ∧ href bad = Missing e) →
  exec (collect_links item) urls =
    urls ++ filter (λ h, torrent_link h = true)
              (omap (λ link, attr_or_None (href link)) l1).
Proof.
  intros Hlks Hl1 Hrest. rewrite collect_links_exec.
  unfold links_urls. rewrite Hlks. by rewrite link_urls_prefix.
Qed.

(** X9.  An entry with an info hash that is not empty always has a magnet
    among its collected links: one collected before, in which case the
    hash adds nothing, or else the magnet made from the hash, which comes
    last. *)
Theorem infohash_gives_magnet (item : Item) (h : string) :
  infohash item = Has h → truthy h = true →
  has_magnet (collected_urls item) = true ∧
  let before :=
    magneturi_urls item ++ enclosures_urls item ++ links_urls item in
  (has_magnet before = true → collected_urls item = before) ∧
  (has_magnet before = false →
     collected_urls item = before ++ ["magnet:?xt=urn:btih:" +:+ h]).
Proof.
  intros Hh Ht. cbn zeta.
  set (before := magneturi_urls item ++ enclosures_urls item ++ links_urls item).
  assert (Heq : collected_urls item = before ++ infohash_urls item before).
  { unfold collected_urls, before.
    rewrite collect_infohash_exec, collect_links_exec, collect_enclosures_exec,
      collect_magneturi_exec.
    by rewrite !app_nil_l, <- !app_assoc. }
  rewrite Heq. unfold infohash_urls. rewrite Hh, Ht. simpl.
  destruct (has_magnet before) eqn:Hb; simpl.
  - rewrite app_nil_r. by split_and!.
  - split_and!; [|done..]. unfold has_magnet in *.
    rewrite existsb_app, Hb. cbn [existsb orb]. rewrite orb_false_r.
    apply (startswith_app "magnet:" ("?xt=urn:btih:" +:+ h)).
Qed.

(** * Further facts about the parsers *)

Section ParserFacts.
Context `{Externals}.
Implicit Types (w : World) (item : Item) (c : FeederClass).

Lemma remove_duplicates_nil (l : list string) :
  remove_duplicates l = [] ↔ l = [].
Proof.
  unfold remove_duplicates. rewrite elements_empty_iff. split.
  - destruct l as [|x l]; [done|]. intros Hempty.
    assert (Hx : x ∈ (list_to_set (x :: l) : gset string))
      by (apply elem_of_list_to_set; left).
    rewrite Hempty in Hx. by apply not_elem_of_empty in Hx.
  - by intros ->.
Qed.

Lemma _parse_rss_item_urls c item w t :
  (_parse_rss_item c item w).1 = Ok (Some t) →
  urls t = remove_duplicates (collected_urls item).
Proof.
  destruct c; simpl; try done.
  - destruct (TorrentFeeder_parse_rss_item_result TorrentFeederCls item w)
      as [ts ->]. intros [= Ht]. by eapply torrent_of_urls.
  - intros Ht. apply ShowRSSFeeder_parse_rss_item_Some in Ht
      as (ts & t0 & Ht0 & ->).
    apply torrent_of_urls in Ht0 as [-> _].
    by destruct (title item) as [s|]; [destruct (startswith s _)|].
Qed.

(** X10.  The links of a release a feeder returns are the links collected
    from the entry, each of them once. *)
Theorem urls_without_duplicates c item w t :
  (_parse_rss_item c item w).1 = Ok (Some t) →
  NoDup (urls t) ∧ ∀ u, u ∈ urls t ↔ u ∈ collected_urls item.
Proof.
  intros Ht. rewrite (_parse_rss_item_urls c item w t Ht).
  unfold remove_duplicates. split; [apply NoDup_elements|].
  intros u. by rewrite elem_of_elements, elem_of_list_to_set.
Qed.

Lemma torrent_of_nameparser c item ts :
  torrent_of c item ts =
    if (length (remove_duplicates (collected_urls item)) =? 0)%nat then None
    else if negb (NameParser.is_known (nameparser_of item)) then None
    else Some {| urls := remove_duplicates (collected_urls item);
                 episodes := NameParser.episodes (nameparser_of item);
                 name := attr_or_None (title item);
                 quality := NameParser.quality (nameparser_of item);
                 timestamp := ts;
                 feeder := c |}.
Proof.
  unfold torrent_of, nameparser_of, parse_name_of, get_nameparser,
    get_numbering, attr_or_None.
  destruct (length _ =? 0)%nat; [done|].
  by destruct (filename item) as [f|]; [destruct (truthy f)|].
Qed.

(** X11.  The parser of a torrent feeder never raises, and it returns a
    release exactly when the entry has a link and the name parser knows
    the name it is given. *)
Theorem torrent_release_iff c item w :
  ∃ r,
    (TorrentFeeder_parse_rss_item c item w).1 = Ok r ∧
    (is_Some r ↔
       collected_urls item ≠ [] ∧
       NameParser.is_known (nameparser_of item) = true).
Proof.
  destruct (TorrentFeeder_parse_rss_item_result c item w) as [ts Hts].
  exists (torrent_of c item ts). split; [done|].
  rewrite torrent_of_nameparser, <- (remove_duplicates_nil (collected_urls item)).
  destruct (remove_duplicates (collected_urls item)) as [|u us]; simpl.
  - split; [by intros [? ?]|by intros [? _]].
  - destruct (NameParser.is_known (nameparser_of item)); simpl.
    + split; [done|by eexists].
    + split; [by intros [? ?]|by intros [_ ?]].
Qed.

(** X12.  A release is named by the title of its entry, also when the
    file name was parsed: episodes and quality come from the name parser
    on the file name, with extension, when the entry has a file name that
    is not empty, and on the title, without extension, otherwise. *)
Theorem release_name_and_parse c item w t :
  (TorrentFeeder_parse_rss_item c item w).1 = Ok (Some t) →
  name t = attr_or_None (title item) ∧
  feeder t = c ∧
  (∀ f, filename item = Has f → truthy f = true →
        episodes t =
          NameParser.episodes (SceneNameParser (Some f) true SCENE_NUMBERING) ∧
        quality t =
          NameParser.quality (SceneNameParser (Some f) true SCENE_NUMBERING)) ∧
  ((∀ f, filename item = Has f → truthy f = false) →
        episodes t =
          NameParser.episodes
            (SceneNameParser (attr_or_None (title item)) false SCENE_NUMBERING) ∧
        quality t =
          NameParser.quality
            (SceneNameParser (attr_or_None (title item)) false SCENE_NUMBERING)).
Proof.
  destruct (TorrentFeeder_parse_rss_item_result c item w) as [ts ->].
  rewrite torrent_of_nameparser.
  destruct (length _ =? 0)%nat; [done|].
  destruct (negb _); [done|]. intros [= <-]. simpl.
  unfold nameparser_of, parse_name_of.
  split_and!; [done..| |].
  - intros f -> ->. done.
  - intros Hf. destruct (filename item) as [f|]; [|done].
    by rewrite (Hf f eq_refl).
Qed.

(** X13.  [ShowRSSFeeder._parse_rss_item] raises exactly when the entry
    has no title, with the exception of that reading, before anything is
    parsed. *)
Theorem showrss_raises_iff_no_title item w e :
  (ShowRSSFeeder_parse_rss_item item w).1 = Raise e ↔ title item = Missing e.
Proof.
  unfold ShowRSSFeeder_parse_rss_item.
  destruct (title item) as [s|e'] eqn:Ht; simpl.
  - split; [|done]. unfold mbind, M_bind, bind, ret. simpl.
    destruct (startswith s "HD 720p: ").
    + destruct (TorrentFeeder_parse_rss_item_result ShowRSSFeederCls
                  (set_title item (slice_from 9 s)) w) as [ts Hts].
      destruct (TorrentFeeder_parse_rss_item _ _ w) as [[[t|]|] w'];
        simpl in *; try done. by destruct (_ && _).
    + destruct (TorrentFeeder_parse_rss_item_result ShowRSSFeederCls item w)
        as [ts Hts].
      by destruct (TorrentFeeder_parse_rss_item _ _ w) as [[[t|]|] w'].
  - split; intros [= ->]; done.
Qed.

(** X14.  For an entry whose title does not start with the marker,
    [ShowRSSFeeder._parse_rss_item] is the parser of the torrent feeders:
    title and quality are left as they are. *)
Theorem showrss_without_marker item s w :
  title item = Has s → startswith s "HD 720p: " = false →
  ShowRSSFeeder_parse_rss_item item w =
    TorrentFeeder_parse_rss_item ShowRSSFeederCls item w.
Proof.
  intros Ht Hm. unfold ShowRSSFeeder_parse_rss_item. rewrite Ht.
  unfold mbind, M_bind, bind, getattr, ret. rewrite Hm.
  by destruct (TorrentFeeder_parse_rss_item _ _ w) as [[[t|]|] w'].
Qed.
End ParserFacts.

(** * Further facts about [get_latest] and [_update] *)

Section CacheFacts.
Context `{Externals}.
Implicit Types (self : BaseFeeder) (w : World) (item : Item) (c : FeederClass).

Lemma for_each_app {S A} (l1 l2 : list A) (body : A → M S unit) (s : S) :
  for_each (l1 ++ l2) body s =
    match for_each l1 body s with
    | (Ok _, s') => for_each l2 body s'
    | (Raise e, s') => (Raise e, s')
    end.
Proof.
  revert s. induction l1 as [|x l1 IH]; intros s; simpl; [done|].
  unfold mbind, M_bind, bind. destruct (body x s) as [[[]|e] s']; [|done].
  apply IH.
Qed.

(** Only the ShowRSS parser can raise. *)
Lemma parses_ok_not_showrss c (es : list Item) w :
  c ≠ ShowRSSFeederCls → parses_ok c es w.
Proof.
  intros Hc. revert w. induction es as [|e es IH]; intros w; simpl; [done|].
  destruct c; simpl; try done; try apply IH.
  destruct (TorrentFeeder_parse_rss_item_result TorrentFeederCls e w) as [ts Hts].
  destruct (TorrentFeeder_parse_rss_item _ _ w) as [[r|ex] w']; simpl in *;
    [apply IH|done].
Qed.

Lemma parsed_releases_base c (es : list Item) w :
  c = BaseFeederCls ∨ c = VODFeederCls → parsed_releases c es w = [].
Proof.
  intros Hc. revert w. induction es as [|e es IH]; intros w; simpl; [done|].
  destruct Hc as [-> | ->]; simpl; apply IH; auto.
Qed.

(** X15.  A call of [get_latest] that comes no later than the interval
    after the recorded update returns the cached list as it is: nothing is
    fetched and the feeder is not changed, only the clock has been read. *)
Theorem get_latest_within_interval self w :
  due self w = false →
  get_latest (self, w) = (Ok (_latest self), (self, tick w)).
Proof.
  intros Hdue. rewrite get_latest_eq, Hdue.
  unfold check_world. unfold due in Hdue.
  by destruct (_last_update_datetime self).
Qed.

(** X16.  [get_latest] of a feeder that is not a ShowRSS feeder never
    raises, and what it returns is the cache it leaves. *)
Theorem get_latest_returns_cache self w :
  cls self ≠ ShowRSSFeederCls →
  ∃ self' w',
    get_latest (self, w) = (Ok (_latest self'), (self', w')).
Proof.
  intros Hc. rewrite get_latest_eq.
  destruct (due self w); [|by eexists _, _].
  rewrite _update_eq. cbn zeta.
  destruct (network _ _ _) as [feed|]; [|by eexists _, _].
  pose proof (store_loop (entries feed)
    (reset_at self (clock (check_world self w) (now_calls (check_world self w))))
    (tick (fetched (check_world self w)))) as Hloop.
  cbn zeta in Hloop. destruct Hloop as (_ & _ & _ & Hloop).
  destruct Hloop as [Hr _]; [by apply parses_ok_not_showrss|].
  destruct (for_each (entries feed) parse_and_store _) as [r [self' w']].
  simpl in Hr. subst r. by exists self', w'.
Qed.

Lemma get_latest_base self w :
  cls self = BaseFeederCls ∨ cls self = VODFeederCls → _latest self = [] →
  ∃ self' w',
    get_latest (self, w) = (Ok [], (self', w')) ∧
    cls self' = cls self ∧ _latest self' = [].
Proof.
  intros Hc Hl. rewrite get_latest_eq.
  destruct (due self w); [|rewrite Hl; by eexists _, _].
  rewrite _update_eq. cbn zeta.
  destruct (network _ _ _) as [feed|]; [|by eexists _, _].
  pose proof (store_loop (entries feed)
    (reset_at self (clock (check_world self w) (now_calls (check_world self w))))
    (tick (fetched (check_world self w)))) as Hloop.
  cbn zeta in Hloop. destruct Hloop as ((Hcls & _) & _ & _ & Hloop).
  destruct Hloop as [Hr Hlat].
  { apply parses_ok_not_showrss. simpl. by destruct Hc as [-> | ->]. }
  destruct (for_each (entries feed) parse_and_store _) as [r [self' w']].
  simpl in *. subst r. rewrite parsed_releases_base in Hlat by done.
  rewrite Hlat. by exists self', w'.
Qed.

(** X17.  A feeder of the base class or of the VOD class never has a
    release: after any number of calls, [get_latest] returns the empty
    list. *)
Theorem base_feeder_has_no_release c n w :
  c = BaseFeederCls ∨ c = VODFeederCls →
  ∃ self' w', get_latest (polls n (__init__ c, w)) = (Ok [], (self', w')).
Proof.
  intros Hc.
  assert (Hinv : cls (polls n (__init__ c, w)).1 = c ∧
                 _latest (polls n (__init__ c, w)).1 = []).
  { induction n as [|n [IHc IHl]]; simpl.
    - by destruct Hc as [-> | ->].
    - destruct (polls n (__init__ c, w)) as [self1 w1]. simpl in *.
      destruct (get_latest_base self1 w1) as (self' & w' & Hg & Hc' & Hl');
        [by rewrite IHc|done|].
      unfold exec. rewrite Hg. simpl. split; congruence. }
  destruct Hinv as [Hcls Hl].
  destruct (polls n (__init__ c, w)) as [self1 w1]. simpl in *.
  destruct (get_latest_base self1 w1) as (self' & w' & Hg & _);
    [by rewrite Hcls|done|].
  by exists self', w'.
Qed.

(** X18.  When an entry of the feed has no title, the refresh of a ShowRSS
    feeder raises at that entry: the cache is left with the releases of
    the entries before it, those after it are not parsed, and the update
    is recorded all the same. *)
Theorem showrss_refresh_stops_at_untitled self w feed es1 bad es2 e :
  cls self = ShowRSSFeederCls →
  network w (rss_url self) (fetch_calls w) = Some feed →
  entries feed = es1 ++ bad :: es2 →
  parses_ok ShowRSSFeederCls es1 (tick (fetched w)) →
  title bad = Missing e →
  ∃ self' w',
    _update (self, w) = (Raise e, (self', w')) ∧
    _latest self' = parsed_releases ShowRSSFeederCls es1 (tick (fetched w)) ∧
    _last_update_datetime self' = Some (clock w (now_calls w)).
Proof.
  intros Hc Hfeed Hes Hok Hbad. rewrite _update_eq, Hfeed. cbn zeta.
  rewrite Hes, for_each_app.
  pose proof (store_loop es1
    (reset_at self (clock w (now_calls w))) (tick (fetched w))) as Hloop.
  cbn zeta in Hloop. simpl in Hloop. rewrite Hc in Hloop.
  destruct Hloop as ((Hcls & _) & Hlast & _ & Hloop).
  destruct (Hloop Hok) as [Hr Hlat].
  destruct (for_each es1 parse_and_store _) as [r [self1 w1]].
  simpl in *. subst r. rewrite Hc in Hcls.
  unfold mbind, M_bind, bind. rewrite parse_and_store_eq, Hcls. simpl.
  unfold ShowRSSFeeder_parse_rss_item. rewrite Hbad. simpl.
  by exists self1, w1.
Qed.

(** X19.  Calls of [get_latest] never change the class, the interval or
    the address of a feeder, nor the clock or the transport, and [n] calls
    make at most [n] fetches. *)
Theorem polls_keep_setup n (st : BaseFeeder * World) :
  cls (polls n st).1 = cls st.1 ∧
  min_update_freq_secs (polls n st).1 = min_update_freq_secs st.1 ∧
  rss_url (polls n st).1 = rss_url st.1 ∧
  clock (polls n st).2 = clock st.2 ∧
  network (polls n st).2 = network st.2 ∧
  (fetch_calls st.2 ≤ fetch_calls (polls n st).2 ≤ fetch_calls st.2 + n)%nat.
Proof.
  induction n as [|n IH]; simpl.
  - split_and!; try done; lia.
  - destruct (polls n st) as [self1 w1].
    pose proof (get_latest_effect self1 w1) as Heff.
    cbn zeta in Heff. unfold same_setup in Heff. simpl in *.
    destruct IH as (?&?&?&?&?&?&?).
    destruct Heff as ((?&?&?&?&?) & Heff).
    assert (Hf : (fetch_calls w1 ≤ fetch_calls (exec get_latest (self1, w1)).2
                  ≤ S (fetch_calls w1))%nat)
      by (destruct (due self1 w1); destruct Heff as [-> _]; lia).
    split_and!; try congruence; lia.
Qed.
End CacheFacts.

(** ** The further facts on the sample values *)

Lemma run_unknown_quality_takes_first_witness :
  ∃ dlables winner sent i n,
    @wanted_dict_of sample_externals [U1; U2] !! (42, 1, 5) = Some dlables ∧
    @use_dlable sample_externals dlables = Ok winner ∧
    @run sample_externals [U1; U2] [] = (Ok tt, sent) ∧
    map_to_list (@wanted_dict_of sample_externals [U1; U2]) !! i
      = Some ((42, 1, 5), dlables) ∧
    sent !! i = Some winner ∧
    [U1; U2] !! n = Some winner ∧
    @is_wanted sample_externals winner = true ∧
    (42, 1, 5) ∈ episode_refs winner ∧
    ∀ m x, (m < n)%nat → [U1; U2] !! m = Some x →
           ¬ (@is_wanted sample_externals x = true ∧ (42, 1, 5) ∈ episode_refs x).
Proof.
  apply (@run_unknown_quality_takes_first sample_externals
           [U1; U2] (42, 1, 5) U1).
  - left.
  - reflexivity.
  - vm_compute. left.
  - intros w' Hin _ _. apply elem_of_cons in Hin as [->|Hin]; [reflexivity|].
    apply list_elem_of_singleton in Hin as ->. reflexivity.
Defined.

Lemma run_without_episodes_witness :
  @run sample_externals [no_episode] [] = (Ok tt, []).
Proof.
  apply (@run_without_episodes sample_externals [no_episode] []).
  intros w Hin _. apply list_elem_of_singleton in Hin as ->. reflexivity.
Defined.

Lemma run_downloads_pack_per_episode_witness :
  ∃ sent i j,
    @run sample_externals [season_pack] [] = (Ok tt, sent) ∧ i ≠ j ∧
    map_to_list (@wanted_dict_of sample_externals [season_pack]) !! i
      = Some ((42, 1, 1), {[ HDTV := season_pack ]}) ∧
    map_to_list (@wanted_dict_of sample_externals [season_pack]) !! j
      = Some ((42, 1, 2), {[ HDTV := season_pack ]}) ∧
    sent !! i = Some season_pack ∧ sent !! j = Some season_pack.
Proof.
  apply (@run_downloads_pack_per_episode sample_externals [season_pack]
           (42, 1, 1) (42, 1, 2)).
  - discriminate.
  - vm_compute. reflexivity.
  - vm_compute. reflexivity.
  - vm_compute. reflexivity.
  - vm_compute. reflexivity.
Defined.

Lemma enclosures_collected_until_stop_witness :
  exec (collect_enclosures
          (set_enclosures empty_item
             ([bittorrent_enclosure "http://example.com/download/1"] ++
              [web_enclosure "http://example.com/page.torrent";
               bittorrent_enclosure "http://example.com/download/2"]))) []
    = [] ++ omap enclosure_url
              [bittorrent_enclosure "http://example.com/download/1"].
Proof.
  apply enclosures_collected_until_stop
    with (rest := [web_enclosure "http://example.com/page.torrent";
                   bittorrent_enclosure "http://example.com/download/2"]).
  - reflexivity.
  - repeat constructor. by eexists.
  - right. eexists _, _. split; reflexivity.
Defined.

Lemma links_collected_until_stop_witness :
  exec (collect_links
          (set_links empty_item
             ([link_to "magnet:?xt=urn:btih:aa"; link_to "http://example.com/";
               link_to "http://example.com/a.torrent"] ++
              [link_without_href; link_to "magnet:?xt=urn:btih:bb"]))) []
    = [] ++ filter (λ h, torrent_link h = true)
              (omap (λ link, attr_or_None (href link))
                 [link_to "magnet:?xt=urn:btih:aa"; link_to "http://example.com/";
                  link_to "http://example.com/a.torrent"]).
Proof.
  apply links_collected_until_stop
    with (rest := [link_without_href; link_to "magnet:?xt=urn:btih:bb"]).
  - reflexivity.
  - repeat constructor; by eexists.
  - right. eexists _, _, _. split; reflexivity.
Defined.

Lemma infohash_gives_magnet_witness :
  has_magnet (collected_urls (set_infohash empty_item "c12fe1c0")) = true ∧
  let before :=
    magneturi_urls (set_infohash empty_item "c12fe1c0") ++
    enclosures_urls (set_infohash empty_item "c12fe1c0") ++
    links_urls (set_infohash empty_item "c12fe1c0") in
  (has_magnet before = true →
     collected_urls (set_infohash empty_item "c12fe1c0") = before) ∧
  (has_magnet before = false →
     collected_urls (set_infohash empty_item "c12fe1c0")
       = before ++ ["magnet:?xt=urn:btih:" +:+ "c12fe1c0"]).
Proof.
  apply (infohash_gives_magnet (set_infohash empty_item "c12fe1c0") "c12fe1c0").
  - reflexivity.
  - reflexivity.
Defined.

Lemma urls_without_duplicates_witness :
  NoDup (urls magnet_release) ∧
  ∀ u, u ∈ urls magnet_release ↔ u ∈ collected_urls magnet_item.
Proof.
  apply (@urls_without_duplicates sample_externals TorrentFeederCls
           magnet_item sample_world magnet_release).
  vm_compute. reflexivity.
Defined.

Lemma release_name_and_parse_witness :
  name magnet_release = attr_or_None (title magnet_item) ∧
  feeder magnet_release = TorrentFeederCls ∧
  (∀ f, filename magnet_item = Has f → truthy f = true →
        episodes magnet_release =
          NameParser.episodes
            (@SceneNameParser sample_externals (Some f) true
               (@SCENE_NUMBERING sample_externals)) ∧
        quality magnet_release =
          NameParser.quality
            (@SceneNameParser sample_externals (Some f) true
               (@SCENE_NUMBERING sample_externals))) ∧
  ((∀ f, filename magnet_item = Has f → truthy f = false) →
        episodes magnet_release =
          NameParser.episodes
            (@SceneNameParser sample_externals
               (attr_or_None (title magnet_item)) false
               (@SCENE_NUMBERING sample_externals)) ∧
        quality magnet_release =
          NameParser.quality
            (@SceneNameParser sample_externals
               (attr_or_None (title magnet_item)) false
               (@SCENE_NUMBERING sample_externals))).
Proof.
  apply (@release_name_and_parse sample_externals TorrentFeederCls
           magnet_item sample_world magnet_release).
  vm_compute. reflexivity.
Defined.

Lemma showrss_without_marker_witness :
  @ShowRSSFeeder_parse_rss_item sample_externals magnet_item sample_world =
    @TorrentFeeder_parse_rss_item sample_externals ShowRSSFeederCls
      magnet_item sample_world.
Proof.
  apply (@showrss_without_marker sample_externals magnet_item
           "Show.Name.S01E05.HDTV").
  - reflexivity.
  - vm_compute. reflexivity.
Defined.

Lemma get_latest_within_interval_witness :
  @get_latest sample_externals (after_second_poll.1, after_second_poll.2) =
    (Ok (_latest after_second_poll.1),
     (after_second_poll.1, tick after_second_poll.2)).
Proof.
  apply (@get_latest_within_interval sample_externals).
  vm_compute. reflexivity.
Defined.

Lemma get_latest_returns_cache_witness :
  ∃ self' w',
    @get_latest sample_externals (__init__ TorrentFeederCls, sample_world)
      = (Ok (_latest self'), (self', w')).
Proof.
  apply (@get_latest_returns_cache sample_externals).
  discriminate.
Defined.

Lemma base_feeder_has_no_release_witness :
  ∃ self' w',
    @get_latest sample_externals
      (@polls sample_externals 2 (__init__ VODFeederCls, sample_world))
      = (Ok [], (self', w')).
Proof.
  apply (@base_feeder_has_no_release sample_externals VODFeederCls 2 sample_world).
  right. reflexivity.
Defined.

Lemma showrss_refresh_stops_at_untitled_witness :
  ∃ self' w',
    @_update sample_externals (__init__ ShowRSSFeederCls, untitled_world)
      = (Raise AttributeError, (self', w')) ∧
    _latest self' =
      @parsed_releases sample_externals ShowRSSFeederCls [magnet_item]
        (tick (fetched untitled_world)) ∧
    _last_update_datetime self' =
      Some (clock untitled_world (now_calls untitled_world)).
Proof.
  apply (@showrss_refresh_stops_at_untitled sample_externals
           (__init__ ShowRSSFeederCls) untitled_world untitled_feed
           [magnet_item] empty_item [magnet_item] AttributeError).
  - reflexivity.
  - reflexivity.
  - reflexivity.
  - vm_compute. exact I.
  - reflexivity.
Defined.
